(** * The canvas graph editing engine

    A shallow embedding of the [Canvas] component: the node and edge
    collections it keeps, the connection validator with its cycle check,
    the node operations (add, duplicate, paste), the clipboard bridge and
    the debounced save.

    React state is modelled by explicit state passing over the record
    [Canvas]; a handler is a function on that record.  An [async] handler
    is one step, the outcome of each [await] being given by its
    environment.  What the component imports and this development has no
    source of ([getOutgoers], [getNode], [updateNode], [applyNodeChanges],
    [applyEdgeChanges] and the deletion of nodes of the flow library,
    [nanoid], [handleError], [isValidSourceTarget], [uploadFile]) is either
    a parameter or modelled next to its caller and marked as such.  The optional callbacks passed
    in as props ([onNodesChange], [onConnect], ...) are left out.
    JavaScript numbers are idealised as rationals. *)

From Stdlib Require Import QArith String Ascii List DecimalString DecimalNat.
From stdpp Require Import base tactics option list relations gmap sets strings.

#[local] Set Warnings "-register-all,-clear-no-such-hyp".

(** ** Data model *)

Inductive JsValue : Type :=
| JsNull
| JsBool (b : bool)
| JsNumber (q : Q)
| JsString (s : string)
| JsObject (fields : list (string * JsValue)).

(** A JavaScript object with string keys, as a list of its own properties. *)
Abbreviation JsRecord := (list (string * JsValue)).

Record XYPosition : Type := { pos_x : Q; pos_y : Q }.

(** [Node] of the flow library, with the properties the canvas reads or
    writes.  [type] is optional; [selected] absent reads as [false]. *)
Record Node : Type := {
  node_id : string;
  node_type : option string;
  node_data : JsRecord;
  node_position : XYPosition;
  node_selected : bool;
  node_origin : option (Q * Q)
}.

Record Edge : Type := {
  edge_id : string;
  edge_type : option string;
  edge_source : string;
  edge_target : string;
  edge_sourceHandle : option string;
  edge_targetHandle : option string;
  edge_selected : bool
}.

Record Connection : Type := {
  conn_source : string;
  conn_target : string;
  conn_sourceHandle : option string;
  conn_targetHandle : option string
}.

(** JavaScript truthiness of a string: every string but the empty one. *)
Definition truthy (s : string) : bool := negb (String.eqb s "").

Definition node_ids (nodes : list Node) : list string := node_id <$> nodes.

(** ** Connection validator *)

(** [getOutgoers(node, nodes, edges)] of the flow library: the nodes that
    are the target of an edge leaving [node].  A node without an id has no
    outgoers; the edge's [type] is not looked at. *)
Definition getOutgoers (node : Node) (nodes : list Node) (edges : list Edge)
  : list Node :=
  if truthy (node_id node) then
    let outgoerIds : gset string :=
      list_to_set
        (edge_target
           <$> filter (λ edge, edge_source edge = node_id node) edges) in
    filter (λ n, node_id n ∈ outgoerIds) nodes
  else [].

Section Validator.

(** [isValidSourceTarget] lives in [@/lib/xyflow]; the validator only
    asks it whether one node may feed another. *)
Variable isValidSourceTarget : Node → Node → bool.

Variable nodes : list Node.
Variable edges : list Edge.
Variable connection : Connection.

(** The [for ... of] loop of [hasCycle] over the outgoers; [visit] is the
    recursive call.  The visited set is one shared object: it is threaded
    through every call and returned. *)
Fixpoint forOutgoers
    (visit : Node → gset string → option (bool * gset string))
    (outgoers : list Node) (visited : gset string)
  : option (bool * gset string) :=
  match outgoers with
  | [] => Some (false, visited)
  | outgoer :: rest =>
      if String.eqb (node_id outgoer) (conn_source connection)
      then Some (true, visited)
      else
        match visit outgoer visited with
        | None => None
        | Some (true, visited') => Some (true, visited')
        | Some (false, visited') => forOutgoers visit rest visited'
        end
  end.

(** [hasCycle(node, visited)].  [fuel] bounds the recursion depth;
    [None] means the bound was hit.  The result [undefined] of the
    source is falsy and is [false] here. *)
Fixpoint hasCycle (fuel : nat) (node : Node) (visited : gset string)
  : option (bool * gset string) :=
  match fuel with
  | O => None
  | S fuel' =>
      if decide (node_id node ∈ visited) then Some (false, visited)
      else
        forOutgoers (hasCycle fuel') (getOutgoers node nodes edges)
                    ({[ node_id node ]} ∪ visited)
  end.

Definition findNode (id : string) : option Node :=
  find (λ node, String.eqb (node_id node) id) nodes.

(** [isValidConnection(connection)].  Every node on the recursion stack
    has put its own id in [visited], so the depth never exceeds the
    number of nodes plus one. *)
Definition isValidConnection : option bool :=
  let target := findNode (conn_target connection) in
  let rejected :=
    if truthy (conn_source connection) then
      match findNode (conn_source connection), target with
      | Some source, Some target => negb (isValidSourceTarget source target)
      | _, _ => true
      end
    else false in
  if rejected then Some false
  else
    match target with
    | None => Some false
    | Some target =>
        if String.eqb (node_id target) (conn_source connection)
        then Some false
        else
          match hasCycle (S (length nodes)) target ∅ with
          | Some (cycle, _) => Some (negb cycle)
          | None => None
          end
    end.

End Validator.

(** The graph the validator is asked about.  [connects keep nodes edges u v]:
    an edge admitted by [keep] leaves the node with id [u] and enters a node
    of the collection with id [v].  The node it leaves has an id (ids come
    from [nanoid] and are never empty). *)
Definition connects (keep : Edge → Prop) (nodes : list Node)
    (edges : list Edge) (u v : string) : Prop :=
  u ≠ "" ∧ v ∈ node_ids nodes ∧
  ∃ e, e ∈ edges ∧ keep e ∧ edge_source e = u ∧ edge_target e = v.

(** An edge is temporary while its [type] is ['temporary'], and persistent
    otherwise. *)
Definition persistent (e : Edge) : Prop := edge_type e ≠ Some "temporary".

Definition anyEdge (e : Edge) : Prop := True.

(** What a call of [hasCycle] that found no cycle leaves behind: every id
    it added to the visited set has all its successors in the set, none of
    them the source of the candidate. *)
Definition closedOver (nodes : list Node) (edges : list Edge)
    (connection : Connection) (old new : gset string) : Prop :=
  ∀ u v, u ∈ new → u ∉ old → connects anyEdge nodes edges u v →
         v ≠ conn_source connection ∧ v ∈ new.

(** The ids the visited set can ever hold. *)
Definition idSet (nodes : list Node) : gset string :=
  list_to_set (node_ids nodes).

(** The candidate passes the checks that come before the cycle check: its
    target is a node, it is no self-loop, and its source, when given, is a
    node that may feed the target. *)
Definition passesChecks (isValidSourceTarget : Node → Node → bool)
    (nodes : list Node) (connection : Connection) : Prop :=
  ∃ target,
    findNode nodes (conn_target connection) = Some target ∧
    node_id target ≠ conn_source connection ∧
    (conn_source connection ≠ "" →
     ∃ source, findNode nodes (conn_source connection) = Some source ∧
               isValidSourceTarget source target = true).

(** ** Graph state store *)

Record Viewport : Type := { vp_x : Q; vp_y : Q; vp_zoom : Q }.

Record Project : Type := { project_id : string; project_userId : string }.

(** What [toObject()] hands to the save action. *)
Record Snapshot : Type := {
  snap_nodes : list Node;
  snap_edges : list Edge;
  snap_viewport : Viewport
}.

Record AnalyticsEvent : Type := {
  ev_category : string;
  ev_name : string;
  ev_action : string;
  ev_properties : list (string * string)
}.

(** The state the component closes over: its React state ([nodes], [edges],
    [copiedNodes], [saveState]), the pending debounce timer of [save], the
    save requests awaiting their response, and what it has sent to its
    collaborators (toasts, console, analytics).  [st_nanoidCalls] counts the
    ids drawn from [nanoid] so far. *)
Record Canvas : Type := {
  st_project : option Project;
  st_nodes : list Node;
  st_edges : list Edge;
  st_copiedNodes : list Node;
  st_viewport : Viewport;
  st_isSaving : bool;
  st_lastSaved : option nat;
  st_saveTimer : option nat;
  st_inFlight : list Snapshot;
  st_issued : nat;
  st_toasts : list (string * string);
  st_console : list string;
  st_tracked : list AnalyticsEvent;
  st_nanoidCalls : nat
}.

Definition setNodes (f : list Node → list Node) (st : Canvas) : Canvas :=
  {| st_project := st_project st; st_nodes := f (st_nodes st);
     st_edges := st_edges st; st_copiedNodes := st_copiedNodes st;
     st_viewport := st_viewport st; st_isSaving := st_isSaving st;
     st_lastSaved := st_lastSaved st; st_saveTimer := st_saveTimer st;
     st_inFlight := st_inFlight st; st_issued := st_issued st;
     st_toasts := st_toasts st; st_console := st_console st;
     st_tracked := st_tracked st; st_nanoidCalls := st_nanoidCalls st |}.

Definition setEdges (f : list Edge → list Edge) (st : Canvas) : Canvas :=
  {| st_project := st_project st; st_nodes := st_nodes st;
     st_edges := f (st_edges st); st_copiedNodes := st_copiedNodes st;
     st_viewport := st_viewport st; st_isSaving := st_isSaving st;
     st_lastSaved := st_lastSaved st; st_saveTimer := st_saveTimer st;
     st_inFlight := st_inFlight st; st_issued := st_issued st;
     st_toasts := st_toasts st; st_console := st_console st;
     st_tracked := st_tracked st; st_nanoidCalls := st_nanoidCalls st |}.

Definition setCopiedNodes (copied : list Node) (st : Canvas) : Canvas :=
  {| st_project := st_project st; st_nodes := st_nodes st;
     st_edges := st_edges st; st_copiedNodes := copied;
     st_viewport := st_viewport st; st_isSaving := st_isSaving st;
     st_lastSaved := st_lastSaved st; st_saveTimer := st_saveTimer st;
     st_inFlight := st_inFlight st; st_issued := st_issued st;
     st_toasts := st_toasts st; st_console := st_console st;
     st_tracked := st_tracked st; st_nanoidCalls := st_nanoidCalls st |}.

(** [setSaveState] together with the bookkeeping of the requests. *)
Definition setSaving (saving : bool) (lastSaved : option nat)
    (inFlight : list Snapshot) (issued : nat) (st : Canvas) : Canvas :=
  {| st_project := st_project st; st_nodes := st_nodes st;
     st_edges := st_edges st; st_copiedNodes := st_copiedNodes st;
     st_viewport := st_viewport st; st_isSaving := saving;
     st_lastSaved := lastSaved; st_saveTimer := st_saveTimer st;
     st_inFlight := inFlight; st_issued := issued;
     st_toasts := st_toasts st; st_console := st_console st;
     st_tracked := st_tracked st; st_nanoidCalls := st_nanoidCalls st |}.

Definition setSaveTimer (timer : option nat) (st : Canvas) : Canvas :=
  {| st_project := st_project st; st_nodes := st_nodes st;
     st_edges := st_edges st; st_copiedNodes := st_copiedNodes st;
     st_viewport := st_viewport st; st_isSaving := st_isSaving st;
     st_lastSaved := st_lastSaved st; st_saveTimer := timer;
     st_inFlight := st_inFlight st; st_issued := st_issued st;
     st_toasts := st_toasts st; st_console := st_console st;
     st_tracked := st_tracked st; st_nanoidCalls := st_nanoidCalls st |}.

Definition toast (title message : string) (st : Canvas) : Canvas :=
  {| st_project := st_project st; st_nodes := st_nodes st;
     st_edges := st_edges st; st_copiedNodes := st_copiedNodes st;
     st_viewport := st_viewport st; st_isSaving := st_isSaving st;
     st_lastSaved := st_lastSaved st; st_saveTimer := st_saveTimer st;
     st_inFlight := st_inFlight st; st_issued := st_issued st;
     st_toasts := st_toasts st ++ [(title, message)];
     st_console := st_console st;
     st_tracked := st_tracked st; st_nanoidCalls := st_nanoidCalls st |}.

Definition consoleDebug (message : string) (st : Canvas) : Canvas :=
  {| st_project := st_project st; st_nodes := st_nodes st;
     st_edges := st_edges st; st_copiedNodes := st_copiedNodes st;
     st_viewport := st_viewport st; st_isSaving := st_isSaving st;
     st_lastSaved := st_lastSaved st; st_saveTimer := st_saveTimer st;
     st_inFlight := st_inFlight st; st_issued := st_issued st;
     st_toasts := st_toasts st; st_console := st_console st ++ [message];
     st_tracked := st_tracked st; st_nanoidCalls := st_nanoidCalls st |}.

Definition track (event : AnalyticsEvent) (st : Canvas) : Canvas :=
  {| st_project := st_project st; st_nodes := st_nodes st;
     st_edges := st_edges st; st_copiedNodes := st_copiedNodes st;
     st_viewport := st_viewport st; st_isSaving := st_isSaving st;
     st_lastSaved := st_lastSaved st; st_saveTimer := st_saveTimer st;
     st_inFlight := st_inFlight st; st_issued := st_issued st;
     st_toasts := st_toasts st; st_console := st_console st;
     st_tracked := st_tracked st ++ [event];
     st_nanoidCalls := st_nanoidCalls st |}.

(** [n] more ids have been drawn from [nanoid]. *)
Definition drawn (n : nat) (st : Canvas) : Canvas :=
  {| st_project := st_project st; st_nodes := st_nodes st;
     st_edges := st_edges st; st_copiedNodes := st_copiedNodes st;
     st_viewport := st_viewport st; st_isSaving := st_isSaving st;
     st_lastSaved := st_lastSaved st; st_saveTimer := st_saveTimer st;
     st_inFlight := st_inFlight st; st_issued := st_issued st;
     st_toasts := st_toasts st; st_console := st_console st;
     st_tracked := st_tracked st;
     st_nanoidCalls := n + st_nanoidCalls st |}.

Inductive NodeChange : Type :=
| NodePositionChange (id : string) (position : XYPosition)
| NodeSelectionChange (id : string) (selected : bool)
| NodeRemoveChange (id : string).

Inductive EdgeChange : Type :=
| EdgeSelectionChange (id : string) (selected : bool)
| EdgeRemoveChange (id : string).

Definition withPosition (position : XYPosition) (n : Node) : Node :=
  {| node_id := node_id n; node_type := node_type n; node_data := node_data n;
     node_position := position; node_selected := node_selected n;
     node_origin := node_origin n |}.

Definition withSelected (selected : bool) (n : Node) : Node :=
  {| node_id := node_id n; node_type := node_type n; node_data := node_data n;
     node_position := node_position n; node_selected := selected;
     node_origin := node_origin n |}.

Definition withId (id : string) (n : Node) : Node :=
  {| node_id := id; node_type := node_type n; node_data := node_data n;
     node_position := node_position n; node_selected := node_selected n;
     node_origin := node_origin n |}.

Definition edgeWithSelected (selected : bool) (e : Edge) : Edge :=
  {| edge_id := edge_id e; edge_type := edge_type e;
     edge_source := edge_source e; edge_target := edge_target e;
     edge_sourceHandle := edge_sourceHandle e;
     edge_targetHandle := edge_targetHandle e; edge_selected := selected |}.

(** Apply [f] to the elements whose id is [id]. *)
Definition updateWhere {A} (getId : A → string) (id : string) (f : A → A)
    (l : list A) : list A :=
  (λ x, if String.eqb (getId x) id then f x else x) <$> l.

Definition applyNodeChange (nodes : list Node) (change : NodeChange)
  : list Node :=
  match change with
  | NodePositionChange id position =>
      updateWhere node_id id (withPosition position) nodes
  | NodeSelectionChange id selected =>
      updateWhere node_id id (withSelected selected) nodes
  | NodeRemoveChange id => filter (λ n, node_id n ≠ id) nodes
  end.

(** Modelled from the spec: [applyNodeChanges] is imported from the flow
    library; it takes a list of changes (position update, selection update,
    removal) and produces the next node collection by folding each change
    over the current collection. *)
Definition applyNodeChanges (changes : list NodeChange) (nodes : list Node)
  : list Node :=
  foldl applyNodeChange nodes changes.

Definition applyEdgeChange (edges : list Edge) (change : EdgeChange)
  : list Edge :=
  match change with
  | EdgeSelectionChange id selected =>
      updateWhere edge_id id (edgeWithSelected selected) edges
  | EdgeRemoveChange id => filter (λ e, edge_id e ≠ id) edges
  end.

(** Modelled from the spec: [applyEdgeChanges] is imported from the flow
    library; symmetric to [applyNodeChanges], for removals and updates on
    edges. *)
Definition applyEdgeChanges (changes : list EdgeChange) (edges : list Edge)
  : list Edge :=
  foldl applyEdgeChange edges changes.

(** ** Persistence *)

(** Calling the debounced [save]: the 1000 ms timer is started, or started
    again when it was already running. *)
Definition save (st : Canvas) : Canvas := setSaveTimer (Some 1000%nat) st.

Definition projectReady (project : option Project) : bool :=
  match project with
  | Some p => truthy (project_userId p) && truthy (project_id p)
  | None => false
  end.

Definition toObject (st : Canvas) : Snapshot :=
  {| snap_nodes := st_nodes st; snap_edges := st_edges st;
     snap_viewport := st_viewport st |}.

(** The timer of [save] elapses and the debounced function runs up to its
    [await]: either it returns at once, or it marks the state as saving and
    sends the current snapshot. *)
Definition timerFires (st : Canvas) : Canvas :=
  match st_saveTimer st with
  | None => st
  | Some _ =>
      let st := setSaveTimer None st in
      if st_isSaving st || negb (projectReady (st_project st)) then st
      else
        setSaving true (st_lastSaved st)
                  (st_inFlight st ++ [toObject st]) (S (st_issued st)) st
  end.

Inductive SaveResponse : Type :=
| ResponseOk
| ResponseError (error : string)
| ActionRejected (message : string).

(** Modelled from the spec: [handleError] lives in [@/lib/error/handle];
    the notification collaborator surfaces the failure as a toast. *)
Definition handleError (title message : string) (st : Canvas) : Canvas :=
  toast title message st.

(** The rest of the debounced function, run when the oldest request in
    flight settles at time [now]. *)
Definition saveSettles (response : SaveResponse) (now : nat) (st : Canvas)
  : Canvas :=
  match st_inFlight st with
  | [] => st
  | _ :: inFlight =>
      let st :=
        match response with
        | ResponseOk =>
            setSaving (st_isSaving st) (Some now) inFlight (st_issued st) st
        | ResponseError message | ActionRejected message =>
            handleError "Error saving project" message
              (setSaving (st_isSaving st) (st_lastSaved st) inFlight
                         (st_issued st) st)
        end in
      setSaving false (st_lastSaved st) (st_inFlight st) (st_issued st) st
  end.

(** ** Node operations *)

(** The [options] of [addNode]: the properties a caller may pass, each
    possibly absent. *)
Record NodeOptions : Type := {
  opt_data : option JsRecord;
  opt_type : option string;
  opt_position : option XYPosition;
  opt_selected : option bool;
  opt_origin : option (Q * Q)
}.

Definition noOptions : NodeOptions :=
  {| opt_data := None; opt_type := None; opt_position := None;
     opt_selected := None; opt_origin := None |}.

(** What [duplicateNode] defers with [setTimeout(..., 0)]: deselect [id],
    select [newId]. *)
Record Deferred : Type := { deferred_id : string; deferred_newId : string }.

Inductive Element : Type :=
| HTMLInputElement
| HTMLTextAreaElement
| HTMLElement (isContentEditable : bool)
| OtherElement
| NoElement.

Record File : Type := {
  file_name : string;
  file_type : string;
  file_bits : string
}.

Record Uploaded : Type := { uploaded_url : string; uploaded_type : string }.

(** An item of [navigator.clipboard.read()]; [getType] gives [None] when
    its promise rejects. *)
Record ClipboardItem : Type := {
  item_types : list string;
  item_getType : string → option string
}.

Inductive ClipboardRead : Type :=
| ClipboardUnsupported
| ClipboardRejected (reason : string)
| ClipboardItems (items : list ClipboardItem).

(** An item of [event.clipboardData.items]. *)
Record DataTransferItem : Type := {
  dti_type : string;
  dti_getAsFile : option File
}.

(** What a paste finds around it: the focused element, the clipboard,
    the outcome of the upload ([None] when [uploadFile] throws) and the
    window size. *)
Record PasteEnv : Type := {
  env_activeElement : Element;
  env_clipboard : ClipboardRead;
  env_uploadFile : File → option Uploaded;
  env_innerWidth : Q;
  env_innerHeight : Q
}.

(** [clipboardItem.types.filter((type) => type.startsWith('image/'))] *)
Definition imageTypes (clipboardItem : ClipboardItem) : list string :=
  filter (λ type, String.prefix "image/" type = true)
         (item_types clipboardItem).

(** The guard both paste handlers start with. *)
Definition isTyping (element : Element) : bool :=
  match element with
  | HTMLInputElement | HTMLTextAreaElement => true
  | HTMLElement isContentEditable => isContentEditable
  | OtherElement | NoElement => false
  end.

(** [s.split(sep)] for a one-character separator. *)
Fixpoint split (sep : ascii) (s : string) : list string :=
  match s with
  | EmptyString => [""]
  | String c rest =>
      if Ascii.eqb c sep then "" :: split sep rest
      else
        match split sep rest with
        | head :: tail => String c head :: tail
        | [] => [String c ""]
        end
  end.

(** [`clipboard-image.${imageType.split('/')[1] || 'png'}`] *)
Definition clipboardFileName (imageType : string) : string :=
  "clipboard-image." +:+
  match split "/" imageType !! 1%nat with
  | Some extension => if truthy extension then extension else "png"
  | None => "png"
  end.

(** [new File([blob], name, { type: imageType })] *)
Definition clipboardFile (imageType blob : string) : File :=
  {| file_name := clipboardFileName imageType;
     file_type := imageType; file_bits := blob |}.

(** [screenToFlowPosition] of the flow library, without snapping. *)
Definition screenToFlowPosition (viewport : Viewport) (x y : Q) : XYPosition :=
  {| pos_x := ((x - vp_x viewport) / vp_zoom viewport)%Q;
     pos_y := ((y - vp_y viewport) / vp_zoom viewport)%Q |}.

Section Operations.

(** [nanoid ()] is random; [nanoid k] stands for the id its [k]-th call
    returned. *)
Variable nanoid : nat → string.

Definition handleNodesChange (changes : list NodeChange) (st : Canvas)
  : Canvas :=
  save (setNodes (applyNodeChanges changes) st).

Definition handleEdgesChange (changes : list EdgeChange) (st : Canvas)
  : Canvas :=
  save (setEdges (applyEdgeChanges changes) st).

Definition handleConnect (connection : Connection) (st : Canvas) : Canvas :=
  let newEdge :=
    {| edge_id := nanoid (st_nanoidCalls st);
       edge_type := Some "animated";
       edge_source := conn_source connection;
       edge_target := conn_target connection;
       edge_sourceHandle := conn_sourceHandle connection;
       edge_targetHandle := conn_targetHandle connection;
       edge_selected := false |} in
  save (setEdges (λ eds, eds ++ [newEdge]) (drawn 1 st)).

(** [addNode(type, options)]; the result carries the new node's id. *)
Definition addNode (type : string) (options : NodeOptions) (st : Canvas)
  : Canvas * string :=
  let newNode :=
    {| node_id := nanoid (st_nanoidCalls st);
       node_type := Some (default type (opt_type options));
       node_data := default [] (opt_data options);
       node_position :=
         default {| pos_x := 0%Q; pos_y := 0%Q |} (opt_position options);
       node_selected := default false (opt_selected options);
       node_origin := Some (default (0%Q, (1 # 2)%Q) (opt_origin options)) |} in
  let st := save (setNodes (λ nds, nds ++ [newNode]) (drawn 1 st)) in
  let st :=
    track {| ev_category := "toolbar"; ev_name := "node";
             ev_action := "added"; ev_properties := [("type", type)] |} st in
  (st, node_id newNode).

(** [getNode(id)] of the flow library reads its node lookup, a map
    filled in the order of the node list: the last node with this id. *)
Definition getNode (id : string) (nodes : list Node) : option Node :=
  find (λ node, String.eqb (node_id node) id) (reverse nodes).

(** [updateNode(id, { selected })] of the flow library merges the update
    into the nodes with this id; the canvas, which owns the nodes, hears
    of it through [onNodesChange]. *)
Definition updateNode (id : string) (selected : bool) (st : Canvas)
  : Canvas :=
  if existsb (λ node, String.eqb (node_id node) id) (st_nodes st)
  then handleNodesChange [NodeSelectionChange id selected] st
  else st.

Definition runDeferred (st : Canvas) (d : Deferred) : Canvas :=
  updateNode (deferred_newId d) true (updateNode (deferred_id d) false st).

(** [duplicateNode(id)], up to its [setTimeout]; the deferred callback
    is returned for the event loop to run. *)
Definition duplicateNode (id : string) (st : Canvas)
  : Canvas * list Deferred :=
  match getNode id (st_nodes st) with
  | None => (st, [])
  | Some node =>
      match node_type node with
      | None => (st, [])
      | Some type =>
          if truthy type then
            let position :=
              {| pos_x := (pos_x (node_position node) + 200)%Q;
                 pos_y := (pos_y (node_position node) + 200)%Q |} in
            let '(st, newId) :=
              addNode type
                {| opt_data := Some (node_data node);
                   opt_type := Some type;
                   opt_position := Some position;
                   opt_selected := Some true;
                   opt_origin := node_origin node |} st in
            (st, [ {| deferred_id := id; deferred_newId := newId |} ])
          else (st, [])
      end
  end.

(** The gesture as the user sees it: [duplicateNode] followed by its
    deferred callback. *)
Definition duplicateNodeSettled (id : string) (st : Canvas) : Canvas :=
  let '(st, deferred) := duplicateNode id st in
  foldl runDeferred st deferred.

Definition handleDuplicateAll (st : Canvas) : Canvas :=
  let selected := filter (λ node, node_selected node = true) (st_nodes st) in
  let '(st, deferred) :=
    foldl (λ '(st, deferred) node,
             let '(st, more) := duplicateNode (node_id node) st in
             (st, deferred ++ more))
          (st, []) selected in
  foldl runDeferred st deferred.

(** [handleConnectEnd]: a connection dropped on the pane. *)
Definition handleConnectEnd (isValid : bool) (clientX clientY : Q)
    (fromNode : option string) (isSourceHandle : bool) (st : Canvas)
  : Canvas :=
  if isValid then st
  else
    match fromNode with
    | None => st
    | Some sourceId =>
        if truthy sourceId then
          let '(st, newNodeId) :=
            addNode "drop"
              {| opt_data :=
                   Some [("isSource", JsBool (negb isSourceHandle))];
                 opt_type := None;
                 opt_position :=
                   Some (screenToFlowPosition (st_viewport st)
                                              clientX clientY);
                 opt_selected := None; opt_origin := None |} st in
          let temporary :=
            {| edge_id := nanoid (st_nanoidCalls st);
               edge_type := Some "temporary";
               edge_source := if isSourceHandle then sourceId else newNodeId;
               edge_target := if isSourceHandle then newNodeId else sourceId;
               edge_sourceHandle := None; edge_targetHandle := None;
               edge_selected := false |} in
          setEdges (λ eds, eds ++ [temporary]) (drawn 1 st)
        else st
    end.

Definition handleConnectStart (st : Canvas) : Canvas :=
  let st := setNodes (filter (λ n, node_type n ≠ Some "drop")) st in
  let st := setEdges (filter (λ e, edge_type e ≠ Some "temporary")) st in
  save st.

Definition addDropNode (targetIsHTMLElement : bool) (clientX clientY : Q)
    (st : Canvas) : Canvas :=
  if targetIsHTMLElement then
    fst (addNode "drop"
           {| opt_data := None; opt_type := None;
              opt_position :=
                Some (screenToFlowPosition (st_viewport st) clientX clientY);
              opt_selected := None; opt_origin := None |} st)
  else st.

Definition handleSelectAll (st : Canvas) : Canvas :=
  setNodes (fmap (withSelected true)) st.

Definition handleCopy (st : Canvas) : Canvas :=
  let selectedNodes :=
    filter (λ node, node_selected node = true) (st_nodes st) in
  match selectedNodes with
  | [] => st
  | _ :: _ => setCopiedNodes selectedNodes st
  end.

(** ** Clipboard bridge *)

(** [handlePasteImage(file)]; [None] when [uploadFile] throws. *)
Definition handlePasteImage (env : PasteEnv) (file : File) (st : Canvas)
  : option Canvas :=
  match env_uploadFile env file with
  | None => None
  | Some uploaded =>
      let viewport := st_viewport st in
      let centerX :=
        (- vp_x viewport / vp_zoom viewport
         + env_innerWidth env / 2 / vp_zoom viewport)%Q in
      let centerY :=
        (- vp_y viewport / vp_zoom viewport
         + env_innerHeight env / 2 / vp_zoom viewport)%Q in
      let '(st, _) :=
        addNode "image"
          {| opt_data :=
               Some [("content",
                      JsObject [("url", JsString (uploaded_url uploaded));
                                ("type", JsString (uploaded_type uploaded));
                                ("name", JsString (file_name file))])];
             opt_type := None;
             opt_position := Some {| pos_x := centerX; pos_y := centerY |};
             opt_selected := None; opt_origin := None |} st in
      Some (track {| ev_category := "toolbar"; ev_name := "node";
                     ev_action := "added";
                     ev_properties :=
                       [("type", "image"); ("source", "clipboard")] |} st)
  end.

(** How the [try] block of [handlePaste] ends. *)
Inductive TryPaste : Type :=
| ImageHandled (st : Canvas)
| NoImage
| Caught (error : string).

(** The loop over the clipboard items. *)
Fixpoint pasteClipboardItems (env : PasteEnv) (items : list ClipboardItem)
    (st : Canvas) : TryPaste :=
  match items with
  | [] => NoImage
  | clipboardItem :: rest =>
      match imageTypes clipboardItem with
      | [] => pasteClipboardItems env rest st
      | imageType :: _ =>
          match item_getType clipboardItem imageType with
          | None => Caught "getType"
          | Some blob =>
              let file := clipboardFile imageType blob in
              match handlePasteImage env file st with
              | None => Caught "uploadFile"
              | Some st => ImageHandled st
              end
          end
      end
  end.

Definition tryPasteImage (env : PasteEnv) (st : Canvas) : TryPaste :=
  match env_clipboard env with
  | ClipboardUnsupported => NoImage
  | ClipboardRejected reason => Caught reason
  | ClipboardItems items => pasteClipboardItems env items st
  end.

(** The fall-back of [handlePaste]: clones of the copied nodes. *)
Definition pasteCopiedNodes (st : Canvas) : Canvas :=
  match st_copiedNodes st with
  | [] => st
  | _ :: _ =>
      let newNodes :=
        imap (λ i node,
                withSelected true
                  (withPosition
                     {| pos_x := (pos_x (node_position node) + 200)%Q;
                        pos_y := (pos_y (node_position node) + 200)%Q |}
                     (withId (nanoid (st_nanoidCalls st + i)) node)))
             (st_copiedNodes st) in
      let st := drawn (length (st_copiedNodes st)) st in
      let st := setNodes (fmap (withSelected false)) st in
      setNodes (λ nodes, nodes ++ newNodes) st
  end.

(** [handlePaste], bound to meta+v. *)
Definition handlePaste (env : PasteEnv) (st : Canvas) : Canvas :=
  if isTyping (env_activeElement env) then st
  else
    match tryPasteImage env st with
    | ImageHandled st => st
    | NoImage => pasteCopiedNodes st
    | Caught error =>
        pasteCopiedNodes
          (consoleDebug ("Clipboard API not available: " +:+ error) st)
    end.

(** The loop of [handlePasteEvent] over the items of the paste event;
    [None] when [handlePasteImage] throws out of the handler. *)
Fixpoint pasteEventItems (env : PasteEnv) (items : list DataTransferItem)
    (st : Canvas) : option Canvas :=
  match items with
  | [] => Some st
  | item :: rest =>
      if String.prefix "image/" (dti_type item) then
        match dti_getAsFile item with
        | None => pasteEventItems env rest st
        | Some file => handlePasteImage env file st
        end
      else pasteEventItems env rest st
  end.

(** [handlePasteEvent], the listener of the document's paste event.  An
    error thrown out of it is an unhandled rejection and the state stays
    as it was. *)
Definition handlePasteEvent (env : PasteEnv) (target : Element)
    (items : option (list DataTransferItem)) (st : Canvas) : Canvas :=
  if isTyping target then st
  else
    match items with
    | None => st
    | Some items => default st (pasteEventItems env items st)
    end.

(** ** The event loop *)

Inductive Gesture : Type :=
| NodesChange (changes : list NodeChange)
| EdgesChange (changes : list EdgeChange)
| Connect (connection : Connection)
| ConnectStart
| ConnectEnd (isValid : bool) (clientX clientY : Q)
             (fromNode : option string) (isSourceHandle : bool)
| AddNode (type : string) (options : NodeOptions)
| DuplicateNode (id : string)
| DuplicateAll
| AddDropNode (targetIsHTMLElement : bool) (clientX clientY : Q)
| SelectAll
| Copy
| Paste (env : PasteEnv)
| PasteEvent (env : PasteEnv) (target : Element)
             (items : option (list DataTransferItem)).

Definition perform (g : Gesture) (st : Canvas) : Canvas :=
  match g with
  | NodesChange changes => handleNodesChange changes st
  | EdgesChange changes => handleEdgesChange changes st
  | Connect connection => handleConnect connection st
  | ConnectStart => handleConnectStart st
  | ConnectEnd isValid clientX clientY fromNode isSourceHandle =>
      handleConnectEnd isValid clientX clientY fromNode isSourceHandle st
  | AddNode type options => fst (addNode type options st)
  | DuplicateNode id => duplicateNodeSettled id st
  | DuplicateAll => handleDuplicateAll st
  | AddDropNode targetIsHTMLElement clientX clientY =>
      addDropNode targetIsHTMLElement clientX clientY st
  | SelectAll => handleSelectAll st
  | Copy => handleCopy st
  | Paste env => handlePaste env st
  | PasteEvent env target items =>
      (* the listener is registered once the project is there *)
      match st_project st with
      | Some _ => handlePasteEvent env target items st
      | None => st
      end
  end.

(** What the single-threaded event loop delivers to the canvas. *)
Inductive Event : Type :=
| UserGesture (g : Gesture)
| TimerFires
| SaveSettles (response : SaveResponse) (now : nat).

Definition step (st : Canvas) (ev : Event) : Canvas :=
  match ev with
  | UserGesture g => perform g st
  | TimerFires => timerFires st
  | SaveSettles response now => saveSettles response now st
  end.

Definition run (events : list Event) (st : Canvas) : Canvas :=
  foldl step st events.

(** Events that are no doing of the user: timers and responses. *)
Definition isBackground (ev : Event) : bool :=
  match ev with
  | UserGesture _ => false
  | TimerFires | SaveSettles _ _ => true
  end.

End Operations.

(** ** Node dropzone *)

Section Dropzone.

(** The dropzone sits inside the canvas and is handed its [addNode]. *)
Variable nanoid : nat → string.

(** What a drop finds around it: the outcome of the upload ([None] when
    [uploadFile] throws) and the window size. *)
Variable uploadFile : File → option Uploaded.
Variable innerWidth innerHeight : Q.

(** [createNodeFromFile(file, position)]; [None] when [uploadFile]
    throws. *)
Definition createNodeFromFile (file : File) (position : option XYPosition)
    (st : Canvas) : option Canvas :=
  match st_project st with
  | None => Some st
  | Some _ =>
      match uploadFile file with
      | None => None
      | Some uploaded =>
          let viewport := st_viewport st in
          let centerX :=
            match position with
            | Some position => pos_x position
            | None =>
                (- vp_x viewport / vp_zoom viewport
                 + innerWidth / 2 / vp_zoom viewport)%Q
            end in
          let centerY :=
            match position with
            | Some position => pos_y position
            | None =>
                (- vp_y viewport / vp_zoom viewport
                 + innerHeight / 2 / vp_zoom viewport)%Q
            end in
          let nodeType :=
            if String.prefix "image/" (uploaded_type uploaded) then "image"
            else if String.prefix "video/" (uploaded_type uploaded)
                 then "video"
            else if String.prefix "audio/" (uploaded_type uploaded)
                 then "audio"
            else "file" in
          Some (fst (addNode nanoid nodeType
                       {| opt_data :=
                            Some [("content",
                                   JsObject
                                     [("url",
                                       JsString (uploaded_url uploaded));
                                      ("type",
                                       JsString (uploaded_type uploaded));
                                      ("name", JsString (file_name file))])];
                          opt_type := None;
                          opt_position :=
                            Some {| pos_x := centerX; pos_y := centerY |};
                          opt_selected := None; opt_origin := None |} st))
      end
  end.

(** [onDrop(acceptedFiles)]: one file after the other; an upload that
    throws ends the loop, and what was created before it stays. *)
Fixpoint onDrop (acceptedFiles : list File) (st : Canvas) : Canvas :=
  match acceptedFiles with
  | [] => st
  | file :: rest =>
      match createNodeFromFile file None st with
      | None => st
      | Some st => onDrop rest st
      end
  end.

End Dropzone.

(** ** Deletion *)

Definition edge_ids (edges : list Edge) : list string := edge_id <$> edges.





(** No directed cycle runs through the nodes of the collection. *)
Definition acyclic (nodes : list Node) (edges : list Edge) : Prop :=
  ∀ u, ¬ tc (connects anyEdge nodes edges) u u.

(** The gestures whose handler calls [save] itself. *)
Definition callsSave (g : Gesture) : bool :=
  match g with
  | NodesChange _ | EdgesChange _ | Connect _ | ConnectStart | AddNode _ _ =>
      true
  | _ => false
  end.

(** The gestures whose handler writes the edge collection. *)
Definition touchesEdges (g : Gesture) : bool :=
  match g with
  | EdgesChange _ | Connect _ | ConnectStart | ConnectEnd _ _ _ _ _ => true
  | _ => false
  end.

(** Mutations spaced further apart than the debounce window: after each
    one the timer fires and the save request gets its response. *)
Definition spaced (rounds : list (Gesture * SaveResponse * nat))
  : list Event :=
  rounds ≫= λ '(g, response, now),
    [UserGesture g; TimerFires; SaveSettles response now].

(** No two nodes share an id, no two edges share an id, and [nanoid] has
    yet to return every id that is not in use: none of the ids it will
    return from now on is on the canvas. *)
Definition idsFresh (nanoid : nat → string) (st : Canvas) : Prop :=
  NoDup (node_ids (st_nodes st)) ∧ NoDup (edge_ids (st_edges st)) ∧
  ∀ k, st_nanoidCalls st ≤ k →
       (nanoid k ∉ node_ids (st_nodes st)) ∧
       (nanoid k ∉ edge_ids (st_edges st)).

(** Every node id on the canvas is one [nanoid] has returned: the canvas
    takes the ids of its nodes from nowhere else. *)
Definition idsDrawn (nanoid : nat → string) (st : Canvas) : Prop :=
  ∀ id, id ∈ node_ids (st_nodes st) →
        ∃ k, k < st_nanoidCalls st ∧ id = nanoid k.

(** What the save keeps of the state: the flag, the requests awaiting
    their response, and the number of requests sent so far. *)
Definition saveView (st : Canvas) : bool * list Snapshot * nat :=
  (st_isSaving st, st_inFlight st, st_issued st).

(** The flag [isSaving] is up exactly while one request is in flight. *)
Definition oneInFlight (st : Canvas) : Prop :=
  length (st_inFlight st) = if st_isSaving st then 1 else 0.

(** The clipboard holds an image: [item] is its first item with an image
    type, and [imageType] the first image type of that item. *)
Definition holdsImage (items : list ClipboardItem) (item : ClipboardItem)
    (imageType : string) : Prop :=
  ∃ before after,
    items = before ++ item :: after ∧
    Forall (λ earlier, imageTypes earlier = []) before ∧
    head (imageTypes item) = Some imageType.

(** The same, read off the types of the items: no item before [item] has
    a type that starts with [image/], and [imageType] is the first type of
    [item] that does. *)
Definition offersImage (items : list ClipboardItem) (item : ClipboardItem)
    (imageType : string) : Prop :=
  ∃ before after types more,
    items = before ++ item :: after ∧
    Forall (λ earlier,
              Forall (λ type, String.prefix "image/" type = false)
                     (item_types earlier)) before ∧
    item_types item = types ++ imageType :: more ∧
    Forall (λ type, String.prefix "image/" type = false) types ∧
    String.prefix "image/" imageType = true.

(** ** Sample graphs *)

Definition sampleNode (id type : string) : Node :=
  {| node_id := id; node_type := Some type; node_data := [];
     node_position := {| pos_x := 0%Q; pos_y := 0%Q |};
     node_selected := false; node_origin := Some (0%Q, (1 # 2)%Q) |}.

Definition sampleEdge (id type source target : string) : Edge :=
  {| edge_id := id; edge_type := Some type;
     edge_source := source; edge_target := target;
     edge_sourceHandle := None; edge_targetHandle := None;
     edge_selected := false |}.

Definition sampleConnection (source target : string) : Connection :=
  {| conn_source := source; conn_target := target;
     conn_sourceHandle := None; conn_targetHandle := None |}.

(** A compatibility rule in the spirit of the comment in the source:
    audio nodes feed transcribe nodes only. *)
Definition audioFeedsTranscribeOnly (source target : Node) : bool :=
  match node_type source with
  | Some "audio" => bool_decide (node_type target = Some "transcribe")
  | _ => true
  end.

(** An image node [A] feeding a transcribe node [B]. *)
Definition imageToTranscribe : list Node * list Edge :=
  ([sampleNode "A" "image"; sampleNode "B" "transcribe"],
   [sampleEdge "e1" "animated" "A" "B"]).

(** A text node [A] and the placeholder [D] left by a connection dropped on
    the pane, linked by the temporary edge of that drop. *)
Definition textWithPlaceholder : list Node * list Edge :=
  ([sampleNode "A" "text"; sampleNode "D" "drop"],
   [sampleEdge "t1" "temporary" "D" "A"]).

Definition sampleNanoid (k : nat) : string :=
  "id-" +:+ NilEmpty.string_of_uint (Nat.to_uint k).

Definition sampleViewport : Viewport :=
  {| vp_x := 100%Q; vp_y := 50%Q; vp_zoom := 2%Q |}.

(** A canvas at rest on an opened project: nothing pending, nothing sent. *)
Definition sampleCanvas (nodes : list Node) (edges : list Edge)
    (copied : list Node) : Canvas :=
  {| st_project := Some {| project_id := "p1"; project_userId := "u1" |};
     st_nodes := nodes; st_edges := edges; st_copiedNodes := copied;
     st_viewport := sampleViewport;
     st_isSaving := false; st_lastSaved := None; st_saveTimer := None;
     st_inFlight := []; st_issued := 0;
     st_toasts := []; st_console := []; st_tracked := [];
     st_nanoidCalls := 0 |}.

Definition pngItem : ClipboardItem :=
  {| item_types := ["text/html"; "image/png"];
     item_getType := λ _, Some "PNG" |}.

Definition uploadOk (file : File) : option Uploaded :=
  Some {| uploaded_url := "https://files/" +:+ file_name file;
          uploaded_type := file_type file |}.

(** A paste with the focus on the pane and a PNG on the clipboard. *)
Definition pasteWithImage : PasteEnv :=
  {| env_activeElement := HTMLElement false;
     env_clipboard := ClipboardItems [pngItem];
     env_uploadFile := uploadOk;
     env_innerWidth := 1280%Q; env_innerHeight := 720%Q |}.

(** The same paste when the upload throws. *)
Definition pasteUploadFails : PasteEnv :=
  {| env_activeElement := HTMLElement false;
     env_clipboard := ClipboardItems [pngItem];
     env_uploadFile := λ _, None;
     env_innerWidth := 1280%Q; env_innerHeight := 720%Q |}.

(** A paste whose clipboard read is denied. *)
Definition pasteReadDenied : PasteEnv :=
  {| env_activeElement := HTMLElement false;
     env_clipboard := ClipboardRejected "NotAllowedError";
     env_uploadFile := uploadOk;
     env_innerWidth := 1280%Q; env_innerHeight := 720%Q |}.

(** A paste with a PNG on the clipboard and the focus in a text input. *)
Definition pasteWhileTyping : PasteEnv :=
  {| env_activeElement := HTMLInputElement;
     env_clipboard := ClipboardItems [pngItem];
     env_uploadFile := uploadOk;
     env_innerWidth := 1280%Q; env_innerHeight := 720%Q |}.

(** The graph [imageToTranscribe] on the canvas, with node [A] copied. *)
Definition canvasWithCopy : Canvas :=
  sampleCanvas (fst imageToTranscribe) (snd imageToTranscribe)
               [sampleNode "A" "image"].

(** A canvas opened empty, on which an image node and a transcribe node
    have been added. *)
Definition canvasOfAddedNodes : Canvas :=
  run sampleNanoid
      [UserGesture (AddNode "image" noOptions);
       UserGesture (AddNode "transcribe" noOptions)]
      (sampleCanvas [] [] []).

(** A paste with nothing on the system clipboard. *)
Definition pasteNoImage : PasteEnv :=
  {| env_activeElement := HTMLElement false;
     env_clipboard := ClipboardItems [];
     env_uploadFile := uploadOk;
     env_innerWidth := 1280%Q; env_innerHeight := 720%Q |}.

(** A PNG whose bits the clipboard refuses to hand over. *)
Definition unreadablePng : ClipboardItem :=
  {| item_types := ["image/png"]; item_getType := λ _, None |}.

(** A paste with that PNG on the clipboard. *)
Definition pasteImageUnreadable : PasteEnv :=
  {| env_activeElement := HTMLElement false;
     env_clipboard := ClipboardItems [unreadablePng];
     env_uploadFile := uploadOk;
     env_innerWidth := 1280%Q; env_innerHeight := 720%Q |}.

(** The graph [imageToTranscribe] on the canvas, with the transcribe node
    [B] copied. *)
Definition canvasWithTranscribeCopied : Canvas :=
  sampleCanvas (fst imageToTranscribe) (snd imageToTranscribe)
               [sampleNode "B" "transcribe"].

(** * Properties *)

(** ** The cycle check *)

Lemma truthy_spec s : truthy s = true ↔ s ≠ "".
Proof.
  unfold truthy. rewrite negb_true_iff.
  destruct (String.eqb_spec s ""); split; congruence.
Qed.

Section ValidatorProofs.
Variable isValidSourceTarget : Node → Node → bool.
Variable nodes : list Node.
Variable edges : list Edge.
Variable connection : Connection.

Lemma elem_of_getOutgoers node o :
  o ∈ getOutgoers node nodes edges ↔
  o ∈ nodes ∧ node_id node ≠ "" ∧
  ∃ e, e ∈ edges ∧ edge_source e = node_id node ∧ edge_target e = node_id o.
Proof.
  unfold getOutgoers. destruct (truthy (node_id node)) eqn:Hid.
  - apply truthy_spec in Hid.
    rewrite list_elem_of_filter, elem_of_list_to_set, list_elem_of_fmap.
    setoid_rewrite list_elem_of_filter. naive_solver.
  - assert (node_id node = "") as Hempty.
    { destruct (decide (node_id node = "")) as [|Hne]; [done|].
      apply truthy_spec in Hne. congruence. }
    rewrite elem_of_nil. naive_solver.
Qed.

Lemma getOutgoers_connects node o :
  o ∈ getOutgoers node nodes edges →
  connects anyEdge nodes edges (node_id node) (node_id o).
Proof.
  rewrite elem_of_getOutgoers. intros (Ho & Hid & e & He & Hs & Ht).
  split; [done|]. split.
  - unfold node_ids. apply list_elem_of_fmap. eauto.
  - exists e. unfold anyEdge. eauto.
Qed.

Lemma connects_getOutgoers node v :
  connects anyEdge nodes edges (node_id node) v →
  ∃ o, o ∈ getOutgoers node nodes edges ∧ node_id o = v.
Proof.
  intros (Hid & Hv & e & He & _ & Hs & Ht).
  apply list_elem_of_fmap in Hv as (o & -> & Ho).
  exists o. split; [|done]. apply elem_of_getOutgoers. eauto 10.
Qed.

Lemma connects_weaken (keep : Edge → Prop) u v :
  connects keep nodes edges u v → connects anyEdge nodes edges u v.
Proof.
  intros (Hu & Hv & e & He & _ & Hst). split; [done|]. split; [done|].
  exists e. unfold anyEdge. tauto.
Qed.

Lemma closedOver_trans a b c :
  a ⊆ b → b ⊆ c →
  closedOver nodes edges connection a b →
  closedOver nodes edges connection b c →
  closedOver nodes edges connection a c.
Proof.
  intros Hab Hbc H1 H2 u v Hu Hnu Huv.
  destruct (decide (u ∈ b)) as [Hb|Hb].
  - destruct (H1 u v Hb Hnu Huv). set_solver.
  - by apply (H2 u v).
Qed.

Lemma forOutgoers_false visit outgoers visited visited' :
  (∀ o vis vis', visit o vis = Some (false, vis') →
     vis ⊆ vis' ∧ node_id o ∈ vis' ∧
     closedOver nodes edges connection vis vis') →
  forOutgoers connection visit outgoers visited = Some (false, visited') →
  visited ⊆ visited' ∧
  closedOver nodes edges connection visited visited' ∧
  ∀ o, o ∈ outgoers →
       node_id o ≠ conn_source connection ∧ node_id o ∈ visited'.
Proof.
  intros Hvisit. revert visited.
  induction outgoers as [|o rest IH]; intros visited Hrun; simpl in Hrun.
  - simplify_eq. split; [done|]. split; [intros u v ??; done|].
    intros o Ho. by apply elem_of_nil in Ho.
  - destruct (String.eqb_spec (node_id o) (conn_source connection)) as [|Hne];
      [done|].
    destruct (visit o visited) as [[[] vis]|] eqn:Hcall; [done| |done].
    apply Hvisit in Hcall as (Hsub & Ho & Hclosed).
    apply IH in Hrun as (Hsub' & Hclosed' & Hrest).
    split; [set_solver|]. split.
    + by apply (closedOver_trans _ vis).
    + intros o' [->|Ho']%elem_of_cons; [|by apply Hrest].
      split; [done|]. set_solver.
Qed.

Lemma hasCycle_false fuel node visited visited' :
  hasCycle nodes edges connection fuel node visited = Some (false, visited') →
  visited ⊆ visited' ∧ node_id node ∈ visited' ∧
  closedOver nodes edges connection visited visited'.
Proof.
  revert node visited visited'.
  induction fuel as [|fuel IH]; intros node visited visited' Hrun;
    simpl in Hrun; [done|].
  destruct (decide (node_id node ∈ visited)) as [Hin|Hnotin].
  - simplify_eq. split; [done|]. split; [done|]. intros u v ??; done.
  - apply forOutgoers_false in Hrun as (Hsub & Hclosed & Houts); [|exact IH].
    split; [set_solver|]. split; [set_solver|].
    intros u v Hu Hnu Huv.
    destruct (decide (u = node_id node)) as [->|Hne].
    + apply connects_getOutgoers in Huv as (o & Ho & <-). by apply Houts.
    + apply (Hclosed u v); [done| |done]. set_solver.
Qed.

(** A call that reports a cycle has found a way to the source. *)
Lemma forOutgoers_true visit node outgoers visited visited' :
  (∀ o vis vis', visit o vis = Some (true, vis') →
     tc (connects anyEdge nodes edges) (node_id o) (conn_source connection)) →
  (∀ o, o ∈ outgoers → o ∈ getOutgoers node nodes edges) →
  forOutgoers connection visit outgoers visited = Some (true, visited') →
  tc (connects anyEdge nodes edges) (node_id node) (conn_source connection).
Proof.
  intros Hvisit. revert visited.
  induction outgoers as [|o rest IH]; intros visited Hsub Hrun;
    simpl in Hrun; [done|].
  assert (connects anyEdge nodes edges (node_id node) (node_id o)) as Hstep.
  { apply getOutgoers_connects, Hsub. by left. }
  destruct (String.eqb_spec (node_id o) (conn_source connection)) as [Heq|Hne].
  - rewrite <- Heq. by apply tc_once.
  - destruct (visit o visited) as [[[] vis]|] eqn:Hcall; [| |done].
    + apply Hvisit in Hcall. by eapply tc_l.
    + eapply IH; [|done]. intros o' Ho'. apply Hsub. by right.
Qed.

Lemma hasCycle_true fuel node visited visited' :
  hasCycle nodes edges connection fuel node visited = Some (true, visited') →
  tc (connects anyEdge nodes edges) (node_id node) (conn_source connection).
Proof.
  revert node visited visited'.
  induction fuel as [|fuel IH]; intros node visited visited' Hrun;
    simpl in Hrun; [done|].
  destruct (decide (node_id node ∈ visited)); [done|].
  eapply forOutgoers_true; [exact IH| |done]. done.
Qed.

Lemma size_idSet : size (idSet nodes) ≤ length nodes.
Proof.
  unfold idSet, node_ids. rewrite <- (length_fmap node_id nodes).
  induction (node_id <$> nodes) as [|x l IH].
  - by rewrite list_to_set_nil, size_empty.
  - rewrite list_to_set_cons, size_union_alt, size_singleton. simpl.
    assert (size ((list_to_set l : gset string) ∖ {[x]})
            ≤ size (list_to_set l : gset string)) as Hle
      by (apply subseteq_size; set_solver).
    lia.
Qed.

Lemma elem_of_idSet node : node ∈ nodes → node_id node ∈ idSet nodes.
Proof.
  intros Hin. unfold idSet, node_ids.
  apply elem_of_list_to_set, list_elem_of_fmap. eauto.
Qed.

(** The traversal returns: enough fuel is left as long as it exceeds the
    number of ids not yet visited. *)
Lemma forOutgoers_total visit outgoers base visited :
  (∀ o vis, o ∈ nodes → base ⊆ vis → vis ⊆ idSet nodes →
     ∃ b vis', visit o vis = Some (b, vis') ∧ vis ⊆ vis' ∧
               vis' ⊆ idSet nodes) →
  (∀ o, o ∈ outgoers → o ∈ nodes) →
  base ⊆ visited → visited ⊆ idSet nodes →
  ∃ b visited',
    forOutgoers connection visit outgoers visited = Some (b, visited') ∧
    visited ⊆ visited' ∧ visited' ⊆ idSet nodes.
Proof.
  intros Hvisit. revert visited.
  induction outgoers as [|o rest IH]; intros visited Houts Hbase Hids; simpl.
  - by exists false, visited.
  - destruct (String.eqb (node_id o) (conn_source connection)).
    { by exists true, visited. }
    destruct (Hvisit o visited) as (b & vis & -> & Hsub & Hvis);
      [apply Houts; by left|done|done|].
    destruct b; [by exists true, vis|].
    destruct (IH vis) as (b & vis' & -> & Hsub' & Hvis');
      [intros o' Ho'; apply Houts; by right|set_solver|done|].
    exists b, vis'. split; [done|]. split; [set_solver|done].
Qed.

Lemma hasCycle_total fuel node visited :
  node ∈ nodes → visited ⊆ idSet nodes →
  size (idSet nodes) - size visited < fuel →
  ∃ b visited',
    hasCycle nodes edges connection fuel node visited = Some (b, visited') ∧
    visited ⊆ visited' ∧ visited' ⊆ idSet nodes.
Proof.
  revert node visited.
  induction fuel as [|fuel IH]; intros node visited Hnode Hids Hfuel;
    [lia|]. simpl.
  destruct (decide (node_id node ∈ visited)) as [Hin|Hnotin].
  { by exists false, visited. }
  pose proof (elem_of_idSet node Hnode) as Hid.
  assert (size ({[node_id node]} ∪ visited) = S (size visited)) as Hsize.
  { rewrite size_union, size_singleton; [done|set_solver]. }
  assert ({[node_id node]} ∪ visited ⊆ idSet nodes) as Hsub by set_solver.
  pose proof (subseteq_size _ _ Hsub) as Hle.
  destruct (forOutgoers_total (hasCycle nodes edges connection fuel)
              (getOutgoers node nodes edges)
              ({[node_id node]} ∪ visited) ({[node_id node]} ∪ visited))
    as (b & vis & Hrun & Hsub' & Hvis); [| |done|done|].
  - intros o vis Ho Hbase Hvis. apply IH; [done|done|].
    pose proof (subseteq_size _ _ Hbase). lia.
  - intros o Ho. by apply elem_of_getOutgoers in Ho as [? _].
  - exists b, vis. split; [done|]. split; [set_solver|done].
Qed.

Lemma findNode_Some id node :
  findNode nodes id = Some node → node ∈ nodes ∧ node_id node = id.
Proof.
  unfold findNode. intros [Hin Heq]%find_some.
  split; [by apply list_elem_of_In|by apply String.eqb_eq].
Qed.

(** When a path leads from the target to the source, the traversal from
    the target cannot come back empty-handed. *)
Lemma hasCycle_complete fuel target visited' :
  hasCycle nodes edges connection fuel target ∅ = Some (false, visited') →
  tc (connects anyEdge nodes edges)
     (node_id target) (conn_source connection) →
  False.
Proof.
  intros (_ & Hin & Hclosed)%hasCycle_false Hpath.
  remember (node_id target) as t eqn:Ht. clear Ht.
  remember (conn_source connection) as s eqn:Hs.
  induction Hpath as [u v Huv|u w v Huw _ IH].
  - destruct (Hclosed u v) as [Hne _]; [done|set_solver|done|]. by subst.
  - apply IH; [|done].
    by destruct (Hclosed u w) as [_ Hw]; [done|set_solver|done|].
Qed.

(** The cycle check as [isValidConnection] runs it: from a node of the
    collection it answers, and it reports a cycle exactly when a path
    leads from that node to the source. *)
Lemma cycle_check_spec target :
  target ∈ nodes →
  ∃ cycle visited,
    hasCycle nodes edges connection (S (length nodes)) target ∅
    = Some (cycle, visited) ∧
    (cycle = true ↔
     tc (connects anyEdge nodes edges)
        (node_id target) (conn_source connection)).
Proof.
  intros Hin.
  destruct (hasCycle_total (S (length nodes)) target ∅)
    as (cycle & visited & Hrun & _);
    [done|set_solver|pose proof size_idSet; lia|].
  exists cycle, visited. split; [done|]. destruct cycle.
  - split; [intros _|done]. by eapply hasCycle_true.
  - split; [done|]. intros Hpath. by destruct (hasCycle_complete _ _ _ Hrun).
Qed.

(** [isValidConnection] always answers. *)
Lemma isValidConnection_total :
  ∃ answer,
    isValidConnection isValidSourceTarget nodes edges connection
    = Some answer.
Proof.
  unfold isValidConnection.
  destruct (if truthy (conn_source connection) then _ else false);
    [by eexists|].
  destruct (findNode nodes (conn_target connection)) as [target|] eqn:Htarget;
    [|by eexists].
  destruct (String.eqb (node_id target) (conn_source connection));
    [by eexists|].
  apply findNode_Some in Htarget as [Hin _].
  destruct (cycle_check_spec target Hin) as (cycle & visited & -> & _).
  by eexists.
Qed.

(** A branch of [isValidConnection] that answers [false] although the
    candidate is said to pass the checks: the checks contradict it. *)
Local Ltac rejected :=
  split; [done|];
  let Hcompat := fresh in
  intros [(? & ? & ? & Hcompat) _];
  try (destruct Hcompat as (? & ? & ?); [done|]);
  congruence.

(** The connections [isValidConnection] accepts. *)
Lemma isValidConnection_true_iff :
  isValidConnection isValidSourceTarget nodes edges connection = Some true ↔
  passesChecks isValidSourceTarget nodes connection ∧
  ¬ tc (connects anyEdge nodes edges)
       (conn_target connection) (conn_source connection).
Proof.
  unfold isValidConnection, passesChecks.
  destruct (findNode nodes (conn_target connection)) as [target|] eqn:Htarget.
  2:{ destruct (if truthy (conn_source connection) then _ else false);
        rejected. }
  pose proof (findNode_Some _ _ Htarget) as [Hin Hid].
  destruct (cycle_check_spec target Hin) as (cycle & visited & Hrun & Hcycle).
  rewrite <- Hid, <- Hcycle.
  destruct (truthy (conn_source connection)) eqn:Hsource.
  - apply truthy_spec in Hsource.
    destruct (findNode nodes (conn_source connection)) as [source|] eqn:Hs;
      [|rejected].
    destruct (isValidSourceTarget source target) eqn:Hcompat; cbn [negb];
      [|rejected].
    destruct (String.eqb_spec (node_id target) (conn_source connection));
      [rejected|].
    rewrite Hrun. destruct cycle; cbn [negb]; [naive_solver|].
    split; [|done]. intros _. split; [by eauto 10|]. by intros ?.
  - assert (conn_source connection = "") as Hempty.
    { destruct (decide (conn_source connection = "")) as [|Hne]; [done|].
      apply truthy_spec in Hne. congruence. }
    destruct (String.eqb_spec (node_id target) (conn_source connection));
      [rejected|].
    rewrite Hrun. destruct cycle; cbn [negb]; [naive_solver|].
    split; [|done]. intros _. split; [|by intros ?].
    exists target. by repeat split.
Qed.

End ValidatorProofs.

Lemma tc_weaken {A} (R1 R2 : relation A) x y :
  (∀ a b, R1 a b → R2 a b) → tc R1 x y → tc R2 x y.
Proof.
  intros Hsub. induction 1 as [a b Hab|a b c Hab _ IH].
  - apply tc_once. auto.
  - eapply tc_l; eauto.
Qed.

Lemma tc_first_step {A} (R : relation A) x y : tc R x y → ∃ z, R x z.
Proof. intros [a b Hab|a b c Hab _]; eauto. Qed.

(** C1.  In every graph in which a directed path of persistent edges leads
    from node [t] to node [s], [isValidConnection] answers [false] to every
    candidate with source [s] and target [t]: accepting it would close a
    cycle.  The path runs through nodes of the collection. *)
Theorem isValidConnection_rejects_cycle
    (isValidSourceTarget : Node → Node → bool)
    (nodes : list Node) (edges : list Edge) (connection : Connection) :
  rtc (connects persistent nodes edges)
      (conn_target connection) (conn_source connection) →
  isValidConnection isValidSourceTarget nodes edges connection = Some false.
Proof.
  intros Hpath.
  destruct (isValidConnection_total isValidSourceTarget nodes edges connection)
    as [[] Hanswer]; [|done].
  apply isValidConnection_true_iff in Hanswer
    as [(target & Htarget & Hself & _) Hnone].
  apply findNode_Some in Htarget as [_ Hid].
  apply rtc_tc in Hpath as [Heq|Htc]; [congruence|].
  destruct Hnone. eapply tc_weaken; [|done].
  intros a b. apply connects_weaken.
Qed.

(** The scenario of C1: with [A → B] in place, [B → A] is rejected. *)
Lemma isValidConnection_rejects_cycle_witness :
  isValidConnection audioFeedsTranscribeOnly
    (fst imageToTranscribe) (snd imageToTranscribe) (sampleConnection "B" "A")
  = Some false.
Proof.
  apply isValidConnection_rejects_cycle.
  apply rtc_once. split; [done|]. split.
  - vm_compute. apply list_elem_of_In. right. by left.
  - exists (sampleEdge "e1" "animated" "A" "B").
    split; [by left|]. split; [|done]. by unfold persistent.
Defined.

(** C3, as the code has it.  The traversal follows every outgoing edge of
    the edge collection, whatever its type: a candidate that passes the
    self-loop and compatibility checks is accepted when no directed path of
    edges of any type leads from its target back to its source, and
    rejected when one does, temporary edges included. *)
Theorem isValidConnection_follows_every_edge
    (isValidSourceTarget : Node → Node → bool)
    (nodes : list Node) (edges : list Edge) (connection : Connection) :
  passesChecks isValidSourceTarget nodes connection →
  (¬ tc (connects anyEdge nodes edges)
        (conn_target connection) (conn_source connection) →
   isValidConnection isValidSourceTarget nodes edges connection = Some true) ∧
  (tc (connects anyEdge nodes edges)
      (conn_target connection) (conn_source connection) →
   isValidConnection isValidSourceTarget nodes edges connection = Some false).
Proof.
  intros Hchecks. split; intros Hpath.
  - by apply isValidConnection_true_iff.
  - destruct (isValidConnection_total isValidSourceTarget nodes edges
                connection) as [[] Hanswer]; [|done].
    by apply isValidConnection_true_iff in Hanswer as [_ Hnone].
Qed.

Lemma isValidConnection_follows_every_edge_witness :
  isValidConnection audioFeedsTranscribeOnly
    (fst imageToTranscribe) (snd imageToTranscribe) (sampleConnection "A" "B")
  = Some true.
Proof.
  apply isValidConnection_follows_every_edge.
  - exists (sampleNode "B" "transcribe"). split; [reflexivity|].
    split; [done|]. intros _. exists (sampleNode "A" "image").
    split; reflexivity.
  - intros (z & _ & _ & e & He & _ & Hsource & _)%tc_first_step.
    apply list_elem_of_In in He. simpl in He. destruct He as [<-|[]].
    discriminate Hsource.
Defined.

(** C3 as stated fails: the only way from [D] back to [A] is a temporary
    edge, the candidate [A → D] passes the other checks, and it is still
    rejected. *)
Lemma temporary_edge_is_followed :
  passesChecks (λ _ _, true) (fst textWithPlaceholder)
               (sampleConnection "A" "D") ∧
  ¬ tc (connects persistent (fst textWithPlaceholder)
                 (snd textWithPlaceholder)) "D" "A" ∧
  isValidConnection (λ _ _, true) (fst textWithPlaceholder)
    (snd textWithPlaceholder) (sampleConnection "A" "D") = Some false.
Proof.
  split; [|split].
  - exists (sampleNode "D" "drop"). split; [reflexivity|].
    split; [done|]. intros _. exists (sampleNode "A" "text").
    split; reflexivity.
  - intros (z & _ & _ & e & He & Hkeep & _)%tc_first_step.
    apply list_elem_of_In in He. simpl in He. destruct He as [<-|[]].
    by apply Hkeep.
  - by vm_compute.
Qed.

(** A small lemma about [handleConnectStart], which is why a drag seldom
    meets a temporary edge: it has removed them all. *)
Lemma handleConnectStart_no_temporary st e :
  e ∈ st_edges (handleConnectStart st) → persistent e.
Proof.
  unfold handleConnectStart. simpl.
  by intros [Hkeep _]%list_elem_of_filter.
Qed.

(** ** The store *)

Lemma filter_none {A} (P : A → Prop) `{!∀ x, Decision (P x)} (l : list A) :
  (∀ x, x ∈ l → ¬ P x) → filter P l = [].
Proof.
  intros Hnone. apply elem_of_nil_inv.
  intros x [HP Hx]%list_elem_of_filter. by apply (Hnone x).
Qed.

Lemma node_ids_updateWhere id f nodes :
  (∀ n, node_id (f n) = node_id n) →
  node_ids (updateWhere node_id id f nodes) = node_ids nodes.
Proof.
  intros Hf. unfold node_ids, updateWhere. rewrite <- list_fmap_compose.
  apply list_fmap_ext. intros _ n _. simpl.
  by destruct (String.eqb (node_id n) id).
Qed.

Lemma node_ids_applyNodeChange nodes change :
  node_ids (applyNodeChange nodes change) ⊆ node_ids nodes.
Proof.
  destruct change as [id position|id selected|id]; simpl.
  - by rewrite node_ids_updateWhere.
  - by rewrite node_ids_updateWhere.
  - unfold node_ids. intros i (n & -> & Hn)%list_elem_of_fmap.
    apply list_elem_of_filter in Hn as [_ Hn].
    apply list_elem_of_fmap. eauto.
Qed.

Lemma node_ids_applyNodeChanges changes nodes :
  node_ids (applyNodeChanges changes nodes) ⊆ node_ids nodes.
Proof.
  unfold applyNodeChanges. revert nodes.
  induction changes as [|change changes IH]; intros nodes; simpl; [done|].
  etrans; [apply IH|apply node_ids_applyNodeChange].
Qed.

Lemma applyNodeChanges_removed changes nodes id :
  NodeRemoveChange id ∈ changes →
  id ∉ node_ids (applyNodeChanges changes nodes).
Proof.
  unfold applyNodeChanges. revert nodes.
  induction changes as [|change changes IH]; intros nodes Hin; simpl.
  - by apply elem_of_nil in Hin.
  - apply elem_of_cons in Hin as [<-|Hin]; [|by apply IH].
    intros Hid. apply (node_ids_applyNodeChanges changes) in Hid.
    simpl in Hid. unfold node_ids in Hid.
    apply list_elem_of_fmap in Hid as (n & -> & Hn).
    by apply list_elem_of_filter in Hn as [Hne _].
Qed.

Lemma applyEdgeChange_subseteq edges change :
  (edge_id <$> applyEdgeChange edges change) ⊆ (edge_id <$> edges).
Proof.
  destruct change as [id selected|id]; simpl.
  - unfold updateWhere. rewrite <- list_fmap_compose.
    erewrite list_fmap_ext; [done|]. intros _ e _. simpl.
    by destruct (String.eqb (edge_id e) id).
  - intros i (e & -> & He)%list_elem_of_fmap.
    apply list_elem_of_filter in He as [_ He].
    apply list_elem_of_fmap. eauto.
Qed.

Lemma applyEdgeChanges_subseteq changes edges :
  (edge_id <$> applyEdgeChanges changes edges) ⊆ (edge_id <$> edges).
Proof.
  unfold applyEdgeChanges. revert edges.
  induction changes as [|change changes IH]; intros edges; simpl; [done|].
  etrans; [apply IH|apply applyEdgeChange_subseteq].
Qed.

Lemma applyEdgeChanges_removed changes edges id :
  EdgeRemoveChange id ∈ changes →
  id ∉ (edge_id <$> applyEdgeChanges changes edges).
Proof.
  unfold applyEdgeChanges. revert edges.
  induction changes as [|change changes IH]; intros edges Hin; simpl.
  - by apply elem_of_nil in Hin.
  - apply elem_of_cons in Hin as [<-|Hin]; [|by apply IH].
    intros Hid. apply (applyEdgeChanges_subseteq changes) in Hid.
    simpl in Hid. apply list_elem_of_fmap in Hid as (e & -> & He).
    by apply list_elem_of_filter in He as [Hne _].
Qed.

(** Each change handler writes its own collection: a node change leaves
    the edges as they are, an edge change the nodes. *)
Lemma change_handlers_write_one_collection
    (nodeChanges : list NodeChange) (edgeChanges : list EdgeChange)
    (st : Canvas) :
  (st_edges (handleNodesChange nodeChanges st) = st_edges st ∧
   ∀ id, NodeRemoveChange id ∈ nodeChanges →
         id ∉ node_ids (st_nodes (handleNodesChange nodeChanges st))) ∧
  (st_nodes (handleEdgesChange edgeChanges st) = st_nodes st ∧
   ∀ id, EdgeRemoveChange id ∈ edgeChanges →
         id ∉ (edge_id <$> st_edges (handleEdgesChange edgeChanges st))).
Proof.
  split; (split; [done|]); intros id Hin; simpl.
  - by apply applyNodeChanges_removed.
  - by apply applyEdgeChanges_removed.
Qed.

(** *** Deletion *)









Section StoreProofs.

Variable nanoid : nat → string.

(** C4, as the code has it.  [handleConnect] appends one new edge, of type
    animated and with an id drawn from [nanoid], to the end of the edge
    collection; when that id was not in use, exactly one edge carries it
    afterwards. *)
Theorem handleConnect_appends (connection : Connection) (st : Canvas) :
  nanoid (st_nanoidCalls st) ∉ (edge_id <$> st_edges st) →
  ∃ newEdge,
    st_edges (handleConnect nanoid connection st) = st_edges st ++ [newEdge] ∧
    edge_id newEdge = nanoid (st_nanoidCalls st) ∧
    edge_type newEdge = Some "animated" ∧
    edge_source newEdge = conn_source connection ∧
    edge_target newEdge = conn_target connection ∧
    filter (λ e, edge_id e = edge_id newEdge)
           (st_edges (handleConnect nanoid connection st)) = [newEdge].
Proof.
  intros Hfresh. eexists. split; [reflexivity|]. simpl.
  repeat (split; [done|]).
  rewrite filter_app, filter_cons_True by done.
  rewrite filter_none; [done|].
  intros e He Heq. apply Hfresh. apply list_elem_of_fmap. eauto.
Qed.

End StoreProofs.

Lemma handleConnect_appends_witness :
  ∃ newEdge,
    st_edges (handleConnect sampleNanoid (sampleConnection "B" "A")
                (sampleCanvas (fst imageToTranscribe)
                              (snd imageToTranscribe) []))
    = snd imageToTranscribe ++ [newEdge] ∧
    edge_id newEdge = "id-0".
Proof.
  destruct (handleConnect_appends sampleNanoid (sampleConnection "B" "A")
              (sampleCanvas (fst imageToTranscribe)
                            (snd imageToTranscribe) []))
    as (newEdge & Hedges & Hid & _).
  - apply not_elem_of_cons. split; [done|apply not_elem_of_nil].
  - exists newEdge. by split.
Defined.

(** C4 as stated fails: committing twice with the same id leaves two edges
    with that id, not one, and differs from committing once. *)
Lemma handleConnect_not_idempotent :
  let commit := handleConnect (λ _, "e") (sampleConnection "A" "B") in
  let st := sampleCanvas (fst imageToTranscribe) [] [] in
  st_edges (commit (commit st)) ≠ st_edges (commit st) ∧
  length (filter (λ e, edge_id e = "e") (st_edges (commit (commit st)))) = 2.
Proof. split; [discriminate|reflexivity]. Qed.

(** ** Node operations *)

Lemma updateWhere_app {A} (getId : A → string) id f (l1 l2 : list A) :
  updateWhere getId id f (l1 ++ l2)
  = updateWhere getId id f l1 ++ updateWhere getId id f l2.
Proof. unfold updateWhere. apply fmap_app. Qed.

Lemma updateWhere_absent id f nodes :
  id ∉ node_ids nodes → updateWhere node_id id f nodes = nodes.
Proof.
  intros Habsent. unfold updateWhere.
  rewrite <- (list_fmap_id nodes) at 2.
  apply list_fmap_ext. intros i n Hn.
  destruct (String.eqb_spec (node_id n) id) as [<-|]; [|done].
  destruct Habsent. apply list_elem_of_fmap.
  eauto using list_elem_of_lookup_2.
Qed.

Lemma updateWhere_selected id selected nodes n :
  n ∈ updateWhere node_id id (withSelected selected) nodes →
  node_id n = id → node_selected n = selected.
Proof.
  unfold updateWhere. intros (m & -> & _)%list_elem_of_fmap.
  destruct (String.eqb_spec (node_id m) id); [done|]. by intros ?.
Qed.

Lemma getNode_Some id nodes node :
  getNode id nodes = Some node → node ∈ nodes ∧ node_id node = id.
Proof.
  unfold getNode. intros [Hin Heq]%find_some.
  apply list_elem_of_In in Hin. rewrite elem_of_reverse in Hin.
  split; [done|by apply String.eqb_eq].
Qed.

Lemma getNode_None id nodes : getNode id nodes = None → id ∉ node_ids nodes.
Proof.
  unfold getNode. intros Hnone (n & -> & Hn)%list_elem_of_fmap.
  rewrite <- elem_of_reverse in Hn. apply list_elem_of_In in Hn.
  apply (find_none _ _ Hnone) in Hn. by rewrite String.eqb_refl in Hn.
Qed.

Section NodeOperationProofs.

Variable nanoid : nat → string.

Lemma st_nodes_updateNode id selected st :
  st_nodes (updateNode id selected st)
  = updateWhere node_id id (withSelected selected) (st_nodes st).
Proof.
  unfold updateNode.
  destruct (existsb _ (st_nodes st)) eqn:Hexists; [done|].
  symmetry. apply updateWhere_absent.
  intros (n & -> & Hn)%list_elem_of_fmap.
  apply list_elem_of_In in Hn.
  assert (existsb (λ node, String.eqb (node_id node) (node_id n))
                  (st_nodes st) = true) as Htrue; [|congruence].
  apply existsb_exists. exists n. by rewrite String.eqb_refl.
Qed.

Lemma st_edges_updateNode id selected st :
  st_edges (updateNode id selected st) = st_edges st.
Proof. unfold updateNode. by destruct (existsb _ _). Qed.

(** *** Where the ids come from *)

(** A handler leaves the node ids that were there and those it has drawn
    from [nanoid]. *)
Lemma idsDrawn_grow st st' :
  (∀ id, id ∈ node_ids (st_nodes st') →
         id ∈ node_ids (st_nodes st) ∨
         ∃ k, (st_nanoidCalls st ≤ k < st_nanoidCalls st') ∧ id = nanoid k) →
  st_nanoidCalls st ≤ st_nanoidCalls st' →
  idsDrawn nanoid st → idsDrawn nanoid st'.
Proof.
  intros Hids Hcalls Hst id [Hold|(k & Hk & ->)]%Hids.
  - destruct (Hst id Hold) as (k & Hk & ->). exists k. split; [lia|done].
  - exists k. split; [lia|done].
Qed.

Lemma idsDrawn_shrink st st' :
  node_ids (st_nodes st') ⊆ node_ids (st_nodes st) →
  st_nanoidCalls st ≤ st_nanoidCalls st' →
  idsDrawn nanoid st → idsDrawn nanoid st'.
Proof.
  intros Hsub. apply idsDrawn_grow. intros id Hid. left. by apply Hsub.
Qed.

Lemma idsDrawn_addNode type options st :
  idsDrawn nanoid st → idsDrawn nanoid (fst (addNode nanoid type options st)).
Proof.
  apply idsDrawn_grow; simpl; [|lia].
  intros id. unfold node_ids. rewrite fmap_app.
  intros [Hin|Hin]%elem_of_app; [by left|].
  right. apply list_elem_of_singleton in Hin.
  exists (st_nanoidCalls st). split; [lia|done].
Qed.

Lemma idsDrawn_updateNode id selected st :
  idsDrawn nanoid st → idsDrawn nanoid (updateNode id selected st).
Proof.
  unfold updateNode. destruct (existsb _ _); [|done].
  apply idsDrawn_shrink; [|done]. simpl. by rewrite node_ids_updateWhere.
Qed.

Lemma idsDrawn_runDeferred deferred st :
  idsDrawn nanoid st → idsDrawn nanoid (foldl runDeferred st deferred).
Proof.
  revert st. induction deferred as [|d deferred IH]; intros st Hst; [done|].
  simpl. apply IH. unfold runDeferred. by do 2 apply idsDrawn_updateNode.
Qed.

Lemma idsDrawn_duplicateNode id st :
  idsDrawn nanoid st → idsDrawn nanoid (fst (duplicateNode nanoid id st)).
Proof.
  intros Hst. unfold duplicateNode.
  destruct (getNode id (st_nodes st)) as [node|]; [|done].
  destruct (node_type node) as [type|]; [|done].
  destruct (truthy type); [|done].
  match goal with
  | |- context [addNode nanoid ?type ?options st] =>
      pose proof (idsDrawn_addNode type options st Hst) as Hadd;
      by destruct (addNode nanoid type options st)
  end.
Qed.

Lemma idsDrawn_handleDuplicateAll st :
  idsDrawn nanoid st → idsDrawn nanoid (handleDuplicateAll nanoid st).
Proof.
  intros Hst. unfold handleDuplicateAll.
  generalize (filter (λ node, node_selected node = true) (st_nodes st)).
  intros selected.
  assert (∀ acc, idsDrawn nanoid (fst acc) →
    idsDrawn nanoid
      (fst (foldl (λ '(st, deferred) node,
              let '(st, more) := duplicateNode nanoid (node_id node) st
              in (st, deferred ++ more)) acc selected))) as Hfold.
  { induction selected as [|node selected IH]; intros [st' deferred] Hacc;
      [done|]. simpl. apply IH.
    pose proof (idsDrawn_duplicateNode (node_id node) st' Hacc) as Hdup.
    by destruct (duplicateNode nanoid (node_id node) st'). }
  specialize (Hfold (st, []) Hst).
  destruct (foldl _ (st, []) selected) as [st' deferred].
  by apply idsDrawn_runDeferred.
Qed.

Lemma idsDrawn_handleConnectEnd isValid clientX clientY fromNode
    isSourceHandle st :
  idsDrawn nanoid st →
  idsDrawn nanoid (handleConnectEnd nanoid isValid clientX clientY fromNode
                                    isSourceHandle st).
Proof.
  intros Hst. unfold handleConnectEnd. destruct isValid; [done|].
  destruct fromNode as [sourceId|]; [|done].
  destruct (truthy sourceId); [|done].
  match goal with
  | |- context [addNode nanoid ?type ?options st] =>
      pose proof (idsDrawn_addNode type options st Hst) as Hadd;
      destruct (addNode nanoid type options st) as [st1 newId]
  end.
  revert Hadd. apply idsDrawn_shrink; simpl; [done|lia].
Qed.

Lemma idsDrawn_handlePasteImage env file st st' :
  handlePasteImage nanoid env file st = Some st' →
  idsDrawn nanoid st → idsDrawn nanoid st'.
Proof.
  unfold handlePasteImage. intros Hpaste Hst.
  destruct (env_uploadFile env file) as [uploaded|]; [|done].
  match goal with
  | _ : context [addNode nanoid ?type ?options st] |- _ =>
      pose proof (idsDrawn_addNode type options st Hst) as Hadd;
      destruct (addNode nanoid type options st) as [st1 newId]
  end.
  simplify_eq. revert Hadd. by apply idsDrawn_shrink.
Qed.

Lemma idsDrawn_pasteCopiedNodes st :
  idsDrawn nanoid st → idsDrawn nanoid (pasteCopiedNodes nanoid st).
Proof.
  unfold pasteCopiedNodes.
  destruct (st_copiedNodes st) as [|first more] eqn:Hcopied; [done|].
  apply idsDrawn_grow; cbn [st_nodes st_nanoidCalls setNodes drawn]; [|lia].
  intros id. unfold node_ids. rewrite fmap_app, <- list_fmap_compose.
  intros [Hin|Hin]%elem_of_app.
  - left. apply list_elem_of_fmap in Hin as (n & -> & Hn).
    apply list_elem_of_fmap. by exists n.
  - right. apply list_elem_of_fmap in Hin as (clone & -> & Hclone).
    apply list_elem_of_lookup in Hclone as [i Hi].
    apply list_lookup_imap_Some in Hi as (node & Hnode & ->).
    apply lookup_lt_Some in Hnode.
    exists (st_nanoidCalls st + i). split; [lia|done].
Qed.

Lemma idsDrawn_handlePaste env st :
  idsDrawn nanoid st → idsDrawn nanoid (handlePaste nanoid env st).
Proof.
  intros Hst. unfold handlePaste.
  destruct (isTyping (env_activeElement env)); [done|].
  destruct (tryPasteImage nanoid env st) as [st'| |error] eqn:Htry.
  - unfold tryPasteImage in Htry.
    destruct (env_clipboard env) as [|reason|items]; [done..|].
    induction items as [|item items IH]; simpl in Htry; [done|].
    destruct (imageTypes item) as [|imageType more]; [by apply IH|].
    destruct (item_getType item imageType) as [blob|]; [|done].
    destruct (handlePasteImage nanoid env _ st) as [st''|] eqn:Himage;
      [|done].
    simplify_eq. by eapply idsDrawn_handlePasteImage.
  - by apply idsDrawn_pasteCopiedNodes.
  - apply idsDrawn_pasteCopiedNodes. revert Hst. by apply idsDrawn_shrink.
Qed.

Lemma idsDrawn_handlePasteEvent env target items st :
  idsDrawn nanoid st →
  idsDrawn nanoid (handlePasteEvent nanoid env target items st).
Proof.
  intros Hst. unfold handlePasteEvent. destruct (isTyping target); [done|].
  destruct items as [items|]; [|done].
  destruct (pasteEventItems nanoid env items st) as [st'|] eqn:Hloop;
    [|done].
  simpl. induction items as [|item items IH]; simpl in Hloop.
  - by simplify_eq.
  - destruct (String.prefix "image/" (dti_type item)); [|by apply IH].
    destruct (dti_getAsFile item) as [file|]; [|by apply IH].
    by eapply idsDrawn_handlePasteImage.
Qed.

Lemma idsDrawn_perform g st :
  idsDrawn nanoid st → idsDrawn nanoid (perform nanoid g st).
Proof.
  intros Hst. destruct g; simpl.
  - revert Hst. apply idsDrawn_shrink; [|done].
    apply node_ids_applyNodeChanges.
  - revert Hst. by apply idsDrawn_shrink.
  - revert Hst. apply idsDrawn_shrink; simpl; [done|lia].
  - revert Hst. apply idsDrawn_shrink; [|done]. simpl.
    unfold node_ids. intros id (n & -> & Hn)%list_elem_of_fmap.
    apply list_elem_of_filter in Hn as [_ Hn].
    apply list_elem_of_fmap. by exists n.
  - by apply idsDrawn_handleConnectEnd.
  - by apply idsDrawn_addNode.
  - unfold duplicateNodeSettled.
    pose proof (idsDrawn_duplicateNode id st Hst) as Hdup.
    destruct (duplicateNode nanoid id st) as [st' deferred].
    by apply idsDrawn_runDeferred.
  - by apply idsDrawn_handleDuplicateAll.
  - unfold addDropNode. destruct targetIsHTMLElement; [|done].
    by apply idsDrawn_addNode.
  - revert Hst. apply idsDrawn_shrink; [|done]. simpl.
    unfold node_ids. rewrite <- list_fmap_compose.
    by erewrite list_fmap_ext.
  - unfold handleCopy. by destruct (filter _ _).
  - by apply idsDrawn_handlePaste.
  - destruct (st_project st); [|done]. by apply idsDrawn_handlePasteEvent.
Qed.

(** Whatever happens on the canvas, the ids of its nodes are ids [nanoid]
    has returned; on a canvas opened empty they are so from the start. *)
Lemma idsDrawn_run events st :
  idsDrawn nanoid st → idsDrawn nanoid (run nanoid events st).
Proof.
  unfold run. revert st.
  induction events as [|ev events IH]; intros st Hst; [done|].
  simpl. apply IH. destruct ev as [g| |response now]; simpl.
  - by apply idsDrawn_perform.
  - revert Hst. apply idsDrawn_shrink; unfold timerFires;
      destruct (st_saveTimer st); try done;
      by destruct (st_isSaving _ || _).
  - revert Hst. apply idsDrawn_shrink; unfold saveSettles;
      destruct (st_inFlight st); try done; by destruct response.
Qed.

Lemma idsDrawn_empty st : st_nodes st = [] → idsDrawn nanoid st.
Proof.
  intros Hempty id Hid. rewrite Hempty in Hid. by apply elem_of_nil in Hid.
Qed.

(** The next id is new to the canvas: [nanoid] has returned every id in
    use before, and it never returns an id twice. *)
Lemma idsDrawn_next_unused st :
  (∀ j k, nanoid j = nanoid k → j = k) →
  idsDrawn nanoid st →
  nanoid (st_nanoidCalls st) ∉ node_ids (st_nodes st).
Proof.
  intros Hinj Hst (k & Hk & Heq)%Hst. apply Hinj in Heq. lia.
Qed.

Lemma duplicateNodeSettled_nodes id st node kind :
  getNode id (st_nodes st) = Some node →
  node_type node = Some kind → kind ≠ "" →
  nanoid (st_nanoidCalls st) ∉ node_ids (st_nodes st) →
  st_nodes (duplicateNodeSettled nanoid id st)
  = updateWhere node_id id (withSelected false) (st_nodes st)
    ++ [ {| node_id := nanoid (st_nanoidCalls st);
            node_type := Some kind;
            node_data := node_data node;
            node_position :=
              {| pos_x := (pos_x (node_position node) + 200)%Q;
                 pos_y := (pos_y (node_position node) + 200)%Q |};
            node_selected := true;
            node_origin :=
              Some (default (0%Q, (1 # 2)%Q) (node_origin node)) |} ] ∧
  st_edges (duplicateNodeSettled nanoid id st) = st_edges st.
Proof.
  intros Hnode Hkind Hne Hfresh.
  apply truthy_spec in Hne.
  pose proof (getNode_Some _ _ _ Hnode) as [Hin Hid].
  assert (id ∈ node_ids (st_nodes st)) as Hold.
  { apply list_elem_of_fmap. eauto. }
  assert (nanoid (st_nanoidCalls st) ≠ id) as Hnew by congruence.
  unfold duplicateNodeSettled, duplicateNode.
  rewrite Hnode, Hkind, Hne.
  cbn [addNode foldl]. unfold runDeferred.
  cbn [deferred_id deferred_newId node_id opt_data opt_type opt_position
       opt_selected opt_origin default from_option].
  rewrite !st_edges_updateNode, !st_nodes_updateNode.
  split; [|done].
  cbn [st_nodes track save setSaveTimer setNodes drawn].
  rewrite !updateWhere_app.
  rewrite (updateWhere_absent (nanoid _) _ (updateWhere _ _ _ _)).
  2:{ by rewrite node_ids_updateWhere. }
  cbn [updateWhere fmap list_fmap node_id withSelected].
  apply String.eqb_neq in Hnew. rewrite Hnew.
  by rewrite String.eqb_refl.
Qed.

(** C5.  For an id that resolves to a node with a kind, [duplicateNode]
    (with its deferred callback run) adds exactly one node: at the
    original's position plus (200, 200), under an id no node had before,
    selected, with the original's kind and data; the original ends up
    deselected.  For an id that resolves to no node, nothing changes.
    The new id is drawn from [nanoid] and not taken over from the original:
    it is new to the canvas because [nanoid] never returns an id twice and
    has returned every id in use before. *)
Theorem duplicateNode_spec (id : string) (st : Canvas) :
  (∀ node kind,
     (∀ j k, nanoid j = nanoid k → j = k) →
     idsDrawn nanoid st →
     getNode id (st_nodes st) = Some node →
     node_type node = Some kind → kind ≠ "" →
     ∃ new,
       st_nodes (duplicateNodeSettled nanoid id st)
       = updateWhere node_id id (withSelected false) (st_nodes st) ++ [new] ∧
       node_position new
       = {| pos_x := (pos_x (node_position node) + 200)%Q;
            pos_y := (pos_y (node_position node) + 200)%Q |} ∧
       (node_id new ∉ node_ids (st_nodes st)) ∧
       node_selected new = true ∧
       (∀ n, n ∈ st_nodes (duplicateNodeSettled nanoid id st) →
             node_id n = id → node_selected n = false) ∧
       node_type new = node_type node ∧
       node_data new = node_data node ∧
       st_edges (duplicateNodeSettled nanoid id st) = st_edges st) ∧
  (getNode id (st_nodes st) = None →
   duplicateNodeSettled nanoid id st = st).
Proof.
  split.
  - intros node kind Hinj Hdrawn Hnode Hkind Hne.
    pose proof (idsDrawn_next_unused st Hinj Hdrawn) as Hfresh.
    destruct (duplicateNodeSettled_nodes id st node kind)
      as [Hnodes Hedges]; [done..|].
    pose proof (getNode_Some _ _ _ Hnode) as [Hin Hid].
    eexists. split; [exact Hnodes|]. cbn.
    repeat (split; [done|]). split; [|by rewrite Hkind].
    rewrite Hnodes. intros n [Hn|Hn]%elem_of_app Heq.
    + by eapply updateWhere_selected.
    + apply list_elem_of_singleton in Hn. subst n. simpl in Heq.
      destruct Hfresh. rewrite Heq. apply list_elem_of_fmap. eauto.
  - intros Hnone. unfold duplicateNodeSettled, duplicateNode.
    by rewrite Hnone.
Qed.

End NodeOperationProofs.

Lemma sampleNanoid_inj j k : sampleNanoid j = sampleNanoid k → j = k.
Proof.
  unfold sampleNanoid. simpl. intros [= Heq].
  change (NilEmpty.string_of_uint (Nat.to_uint j)
          = NilEmpty.string_of_uint (Nat.to_uint k)) in Heq.
  apply (f_equal NilEmpty.uint_of_string) in Heq.
  rewrite !NilEmpty.usu in Heq. injection Heq as Heq.
  apply (f_equal Nat.of_uint) in Heq.
  by rewrite !DecimalNat.Unsigned.of_to in Heq.
Qed.

Lemma duplicateNode_spec_witness :
  (∃ new,
     st_nodes (duplicateNodeSettled sampleNanoid "id-0" canvasOfAddedNodes)
     = updateWhere node_id "id-0" (withSelected false)
                   (st_nodes canvasOfAddedNodes)
       ++ [new] ∧
     (node_id new ∉ node_ids (st_nodes canvasOfAddedNodes)) ∧
     node_position new = {| pos_x := (0 + 200)%Q; pos_y := (0 + 200)%Q |}) ∧
  duplicateNodeSettled sampleNanoid "Z" canvasOfAddedNodes
  = canvasOfAddedNodes.
Proof.
  split.
  - destruct (duplicateNode_spec sampleNanoid "id-0" canvasOfAddedNodes)
      as [Hdup _].
    destruct (Hdup {| node_id := "id-0"; node_type := Some "image";
                      node_data := [];
                      node_position := {| pos_x := 0%Q; pos_y := 0%Q |};
                      node_selected := false;
                      node_origin := Some (0%Q, (1 # 2)%Q) |} "image")
      as (new & Hnodes & Hpos & Hid & _).
    + apply sampleNanoid_inj.
    + by apply idsDrawn_run, idsDrawn_empty.
    + reflexivity.
    + reflexivity.
    + done.
    + exists new. by repeat split.
  - apply (duplicateNode_spec sampleNanoid "Z"). reflexivity.
Defined.

(** ** The clipboard bridge *)

Section ClipboardProofs.

Variable nanoid : nat → string.

(** The loop stops at the first item with an image type. *)
Lemma pasteClipboardItems_first env items item imageType st :
  holdsImage items item imageType →
  pasteClipboardItems nanoid env items st
  = match item_getType item imageType with
    | None => Caught "getType"
    | Some blob =>
        match handlePasteImage nanoid env (clipboardFile imageType blob) st
        with
        | None => Caught "uploadFile"
        | Some st => ImageHandled st
        end
    end.
Proof.
  intros (before & after & -> & Hbefore & Hhead).
  induction Hbefore as [|earlier before Hnone _ IH]; simpl.
  - destruct (imageTypes item) as [|first more]; [done|].
    by simplify_eq/=.
  - by rewrite Hnone.
Qed.

Lemma imageTypes_none types :
  Forall (λ type, String.prefix "image/" type = false) types →
  filter (λ type, String.prefix "image/" type = true) types = [].
Proof.
  intros Hnone. apply filter_none. intros type Htype Himage.
  rewrite Forall_forall in Hnone. apply Hnone in Htype. congruence.
Qed.

Lemma offersImage_holdsImage items item imageType :
  offersImage items item imageType → holdsImage items item imageType.
Proof.
  intros (before & after & types & more & -> & Hbefore & Htypes & Hnone
          & Himage).
  exists before, after. split; [done|]. split.
  - eapply Forall_impl; [exact Hbefore|]. intros earlier.
    apply imageTypes_none.
  - unfold imageTypes. rewrite Htypes, filter_app, imageTypes_none by done.
    by rewrite filter_cons_True.
Qed.

Lemma first_match {A} (p : A → bool) (l : list A) :
  Forall (λ x, p x = false) l ∨
  ∃ before x after,
    l = before ++ x :: after ∧ Forall (λ x, p x = false) before ∧ p x = true.
Proof.
  induction l as [|a l IH]; [left; constructor|].
  destruct (p a) eqn:Ha.
  - right. exists [], a, l. by repeat split.
  - destruct IH as [Hnone|(before & x & after & -> & Hbefore & Hx)].
    + left. by constructor.
    + right. exists (a :: before), x, after. split; [done|].
      split; [by constructor|done].
Qed.

(** A clipboard that holds an image offers one: its first item with an
    image type, and the first image type of that item. *)
Lemma offersImage_exists items :
  Exists (λ item,
            Exists (λ type, String.prefix "image/" type = true)
                   (item_types item)) items →
  ∃ item imageType, offersImage items item imageType.
Proof.
  intros Hholds.
  destruct (first_match
              (λ item, existsb (String.prefix "image/") (item_types item))
              items)
    as [Hnone|(before & item & after & -> & Hbefore & Hitem)].
  - apply Exists_exists in Hholds as (item & Hitem & Himage).
    rewrite Forall_forall in Hnone. apply Hnone in Hitem.
    apply Exists_exists in Himage as (type & Htype & Himage).
    assert (existsb (String.prefix "image/") (item_types item) = true)
      as Htrue; [|congruence].
    apply existsb_exists. exists type. split; [|done].
    by apply list_elem_of_In.
  - destruct (first_match (String.prefix "image/") (item_types item))
      as [Hnone|(types & imageType & more & Htypes & Hfirst & Himage)].
    + apply existsb_exists in Hitem as (type & Htype%list_elem_of_In & Himage).
      rewrite Forall_forall in Hnone. apply Hnone in Htype. congruence.
    + exists item, imageType, before, after, types, more.
      split; [done|]. split; [|done].
      eapply Forall_impl; [exact Hbefore|]. intros earlier Hearlier.
      apply Forall_forall. intros type Htype%list_elem_of_In.
      destruct (String.prefix "image/" type) eqn:Himage'; [|done].
      assert (existsb (String.prefix "image/") (item_types earlier) = true)
        as Htrue; [|congruence].
      apply existsb_exists. by exists type.
Qed.

(** C8, as the code has it.  A paste outside a text field, with an image on
    the system clipboard that is read and uploaded, adds exactly one node: an
    image node at the centre of the viewport, as the code computes it from
    the viewport and the size of the window.  The copied nodes are not
    pasted, whether or not there are any. *)
Theorem paste_prefers_clipboard_image
    (env : PasteEnv) (st : Canvas) (items : list ClipboardItem)
    (item : ClipboardItem) (imageType blob : string) (uploaded : Uploaded) :
  isTyping (env_activeElement env) = false →
  env_clipboard env = ClipboardItems items →
  offersImage items item imageType →
  item_getType item imageType = Some blob →
  env_uploadFile env (clipboardFile imageType blob) = Some uploaded →
  ∃ image,
    st_nodes (handlePaste nanoid env st) = st_nodes st ++ [image] ∧
    st_edges (handlePaste nanoid env st) = st_edges st ∧
    st_copiedNodes (handlePaste nanoid env st) = st_copiedNodes st ∧
    node_type image = Some "image" ∧
    node_data image
    = [("content",
        JsObject [("url", JsString (uploaded_url uploaded));
                  ("type", JsString (uploaded_type uploaded));
                  ("name", JsString (clipboardFileName imageType))])] ∧
    node_position image
    = {| pos_x :=
           (- vp_x (st_viewport st) / vp_zoom (st_viewport st)
            + env_innerWidth env / 2 / vp_zoom (st_viewport st))%Q;
         pos_y :=
           (- vp_y (st_viewport st) / vp_zoom (st_viewport st)
            + env_innerHeight env / 2 / vp_zoom (st_viewport st))%Q |}.
Proof.
  intros Hfocus Hclipboard Himage%offersImage_holdsImage Hblob Hupload.
  unfold handlePaste, tryPasteImage. rewrite Hfocus, Hclipboard.
  rewrite (pasteClipboardItems_first env items item imageType st Himage).
  rewrite Hblob. unfold handlePasteImage. rewrite Hupload.
  eexists. split; [reflexivity|]. by cbn.
Qed.

(** C9, as the code has it.  When the clipboard read fails during
    [handlePaste] (the read is denied, or the image cannot be read from its
    item), the failure goes to the console and no toast is raised; no edge
    is touched.  The gesture then falls back to the copied nodes: with none
    copied the graph stays as it was. *)
Theorem failed_paste_falls_back (env : PasteEnv) (st : Canvas) :
  isTyping (env_activeElement env) = false →
  (∃ reason, env_clipboard env = ClipboardRejected reason) ∨
  (∃ items item imageType,
     env_clipboard env = ClipboardItems items ∧
     holdsImage items item imageType ∧
     item_getType item imageType = None) →
  ∃ message,
    handlePaste nanoid env st
    = pasteCopiedNodes nanoid (consoleDebug message st) ∧
    st_toasts (handlePaste nanoid env st) = st_toasts st ∧
    st_edges (handlePaste nanoid env st) = st_edges st ∧
    (st_copiedNodes st = [] →
     st_nodes (handlePaste nanoid env st) = st_nodes st).
Proof.
  intros Hfocus Hfails.
  assert (∃ error, tryPasteImage nanoid env st = Caught error)
    as [error Hcaught].
  { unfold tryPasteImage.
    destruct Hfails as [[reason ->]|
      (items & item & imageType & -> & Himage & Hblob)]; [by eexists|].
    rewrite (pasteClipboardItems_first env items item imageType st Himage).
    rewrite Hblob. by eexists. }
  unfold handlePaste. rewrite Hfocus, Hcaught.
  eexists. split; [reflexivity|].
  unfold pasteCopiedNodes. cbn [st_copiedNodes consoleDebug].
  destruct (st_copiedNodes st); [done|].
  repeat (split; [done|]). done.
Qed.

(** C10.  With the focus in a text input, a textarea or a contentEditable
    element, both paste handlers return at once: whatever the clipboard
    and the copied nodes hold, the state is as it was. *)
Theorem paste_ignored_while_typing
    (env : PasteEnv) (items : option (list DataTransferItem))
    (st : Canvas) :
  env_activeElement env
    ∈ [HTMLInputElement; HTMLTextAreaElement; HTMLElement true] →
  handlePaste nanoid env st = st ∧
  handlePasteEvent nanoid env (env_activeElement env) items st = st.
Proof.
  intros Hfocus. unfold handlePaste, handlePasteEvent.
  assert (isTyping (env_activeElement env) = true) as ->; [|done].
  repeat (apply elem_of_cons in Hfocus as [->|Hfocus]; [done|]).
  by apply elem_of_nil in Hfocus.
Qed.

End ClipboardProofs.

Lemma pngItem_offersImage : offersImage [pngItem] pngItem "image/png".
Proof.
  exists [], [], ["text/html"], []. split; [done|].
  split; [constructor|]. split; [done|]. split; [|done].
  by constructor.
Qed.

Lemma paste_prefers_clipboard_image_witness :
  ∃ image,
    st_nodes (handlePaste sampleNanoid pasteWithImage canvasWithCopy)
    = st_nodes canvasWithCopy ++ [image] ∧
    node_type image = Some "image".
Proof.
  destruct (paste_prefers_clipboard_image sampleNanoid pasteWithImage
              canvasWithCopy [pngItem] pngItem "image/png" "PNG"
              {| uploaded_url := "https://files/clipboard-image.png";
                 uploaded_type := "image/png" |})
    as (image & Hnodes & _ & _ & Htype & _).
  - reflexivity.
  - reflexivity.
  - apply pngItem_offersImage.
  - reflexivity.
  - reflexivity.
  - exists image. by split.
Defined.

(** C8 as stated fails.  With a PNG on the clipboard and the transcribe
    node [B] copied, a paste with the focus in a text input adds nothing;
    and when the image cannot be read from its item, or its upload throws,
    the paste adds no image node and pastes the copy of [B]. *)
Lemma clipboard_image_is_not_always_pasted :
  let pasted :=
    (withSelected false <$> fst imageToTranscribe)
    ++ [ {| node_id := "id-0"; node_type := Some "transcribe";
            node_data := [];
            node_position := {| pos_x := (0 + 200)%Q; pos_y := (0 + 200)%Q |};
            node_selected := true;
            node_origin := Some (0%Q, (1 # 2)%Q) |} ] in
  handlePaste sampleNanoid pasteWhileTyping canvasWithTranscribeCopied
  = canvasWithTranscribeCopied ∧
  st_nodes (handlePaste sampleNanoid pasteImageUnreadable
                        canvasWithTranscribeCopied) = pasted ∧
  st_nodes (handlePaste sampleNanoid pasteUploadFails
                        canvasWithTranscribeCopied) = pasted.
Proof. by repeat split. Qed.

Lemma failed_paste_falls_back_witness :
  st_toasts (handlePaste sampleNanoid pasteReadDenied canvasWithCopy) = [] ∧
  st_edges (handlePaste sampleNanoid pasteReadDenied canvasWithCopy)
  = snd imageToTranscribe.
Proof.
  destruct (failed_paste_falls_back sampleNanoid pasteReadDenied
              canvasWithCopy)
    as (message & _ & Htoasts & Hedges & _).
  - reflexivity.
  - left. by exists "NotAllowedError".
  - by split.
Defined.

(** C9 as stated fails: with a node copied, a denied clipboard read and a
    failed upload both end in a paste of the copied node, and no toast. *)
Lemma failed_paste_changes_graph :
  (st_nodes (handlePaste sampleNanoid pasteReadDenied canvasWithCopy)
   ≠ st_nodes canvasWithCopy ∧
   st_toasts (handlePaste sampleNanoid pasteReadDenied canvasWithCopy) = []) ∧
  (st_nodes (handlePaste sampleNanoid pasteUploadFails canvasWithCopy)
   ≠ st_nodes canvasWithCopy ∧
   st_toasts (handlePaste sampleNanoid pasteUploadFails canvasWithCopy) = []).
Proof. split; (split; [by vm_compute|reflexivity]). Qed.

Lemma paste_ignored_while_typing_witness :
  handlePaste sampleNanoid pasteWhileTyping canvasWithCopy = canvasWithCopy ∧
  handlePasteEvent sampleNanoid pasteWhileTyping HTMLInputElement
    (Some [ {| dti_type := "image/png"; dti_getAsFile := None |} ])
    canvasWithCopy
  = canvasWithCopy.
Proof.
  apply (paste_ignored_while_typing sampleNanoid pasteWhileTyping).
  by left.
Defined.

(** ** Persistence *)

Section PersistenceProofs.

Variable nanoid : nat → string.

(** *** Who calls [save] *)

Lemma mutations_arm_timer changes edgeChanges connection type options st :
  st_saveTimer (handleNodesChange changes st) = Some 1000 ∧
  st_saveTimer (handleEdgesChange edgeChanges st) = Some 1000 ∧
  st_saveTimer (handleConnect nanoid connection st) = Some 1000 ∧
  st_saveTimer (fst (addNode nanoid type options st)) = Some 1000 ∧
  st_saveTimer (handleConnectStart st) = Some 1000.
Proof. by repeat split. Qed.

Lemma pasteCopiedNodes_keeps_timer st :
  st_saveTimer (pasteCopiedNodes nanoid st) = st_saveTimer st.
Proof. unfold pasteCopiedNodes. by destruct (st_copiedNodes st). Qed.

Lemma handleSelectAll_keeps_timer st :
  st_saveTimer (handleSelectAll st) = st_saveTimer st.
Proof. done. Qed.

(** *** Gestures leave the save alone *)

Lemma saveView_updateNode id selected st :
  saveView (updateNode id selected st) = saveView st.
Proof. unfold updateNode. by destruct (existsb _ _). Qed.

Lemma saveView_runDeferred deferred st :
  saveView (foldl runDeferred st deferred) = saveView st.
Proof.
  revert st. induction deferred as [|d deferred IH]; intros st; [done|].
  simpl. rewrite IH. unfold runDeferred.
  by rewrite !saveView_updateNode.
Qed.

Lemma saveView_duplicateNode id st :
  saveView (fst (duplicateNode nanoid id st)) = saveView st.
Proof.
  unfold duplicateNode.
  destruct (getNode id (st_nodes st)) as [node|]; [|done].
  destruct (node_type node) as [type|]; [|done].
  by destruct (truthy type).
Qed.

Lemma saveView_duplicateNodeSettled id st :
  saveView (duplicateNodeSettled nanoid id st) = saveView st.
Proof.
  unfold duplicateNodeSettled.
  pose proof (saveView_duplicateNode id st) as Hdup.
  destruct (duplicateNode nanoid id st) as [st' deferred].
  by rewrite saveView_runDeferred.
Qed.

Lemma saveView_handleDuplicateAll st :
  saveView (handleDuplicateAll nanoid st) = saveView st.
Proof.
  unfold handleDuplicateAll.
  generalize (filter (λ node, node_selected node = true) (st_nodes st)).
  intros selected.
  assert (∀ acc,
    saveView (fst (foldl (λ '(st, deferred) node,
                     let '(st, more) := duplicateNode nanoid (node_id node) st
                     in (st, deferred ++ more)) acc selected))
    = saveView (fst acc)) as Hfold.
  { induction selected as [|node selected IH]; intros [st' deferred];
      [done|]. simpl. rewrite IH.
    pose proof (saveView_duplicateNode (node_id node) st') as Hdup.
    by destruct (duplicateNode nanoid (node_id node) st'). }
  specialize (Hfold (st, [])).
  destruct (foldl _ (st, []) selected) as [st' deferred].
  by rewrite saveView_runDeferred.
Qed.

Lemma saveView_handlePasteImage env file st st' :
  handlePasteImage nanoid env file st = Some st' →
  saveView st' = saveView st.
Proof.
  unfold handlePasteImage.
  destruct (env_uploadFile env file); [|done]. by intros [= <-].
Qed.

Lemma saveView_pasteCopiedNodes st :
  saveView (pasteCopiedNodes nanoid st) = saveView st.
Proof. unfold pasteCopiedNodes. by destruct (st_copiedNodes st). Qed.

Lemma saveView_handlePaste env st :
  saveView (handlePaste nanoid env st) = saveView st.
Proof.
  unfold handlePaste.
  destruct (isTyping (env_activeElement env)); [done|].
  destruct (tryPasteImage nanoid env st) as [st'| |error] eqn:Htry.
  - unfold tryPasteImage in Htry.
    destruct (env_clipboard env) as [|reason|items]; [done..|].
    induction items as [|item items IH]; simpl in Htry; [done|].
    destruct (imageTypes item) as [|imageType more]; [by apply IH|].
    destruct (item_getType item imageType) as [blob|]; [|done].
    destruct (handlePasteImage nanoid env _ st) as [st''|] eqn:Himage;
      [|done].
    simplify_eq. by eapply saveView_handlePasteImage.
  - apply saveView_pasteCopiedNodes.
  - by rewrite saveView_pasteCopiedNodes.
Qed.

Lemma saveView_handlePasteEvent env target items st :
  saveView (handlePasteEvent nanoid env target items st) = saveView st.
Proof.
  unfold handlePasteEvent. destruct (isTyping target); [done|].
  destruct items as [items|]; [|done].
  destruct (pasteEventItems nanoid env items st) as [st'|] eqn:Hloop;
    [|done].
  simpl. induction items as [|item items IH]; simpl in Hloop.
  - by simplify_eq.
  - destruct (String.prefix "image/" (dti_type item)); [|by apply IH].
    destruct (dti_getAsFile item) as [file|]; [|by apply IH].
    by eapply saveView_handlePasteImage.
Qed.

Lemma saveView_perform g st : saveView (perform nanoid g st) = saveView st.
Proof.
  destruct g; simpl; try done.
  - unfold handleConnectEnd. destruct isValid; [done|].
    destruct fromNode as [sourceId|]; [|done]. by destruct (truthy sourceId).
  - apply saveView_duplicateNodeSettled.
  - apply saveView_handleDuplicateAll.
  - unfold addDropNode. by destruct targetIsHTMLElement.
  - unfold handleCopy. by destruct (filter _ _).
  - apply saveView_handlePaste.
  - destruct (st_project st); [apply saveView_handlePasteEvent|done].
Qed.

(** *** At most one request in flight *)

Lemma step_oneInFlight st ev :
  oneInFlight st → oneInFlight (step nanoid st ev).
Proof.
  unfold oneInFlight. intros Hinv. destruct ev as [g| |response now]; simpl.
  - pose proof (saveView_perform g st) as Hview. unfold saveView in Hview.
    injection Hview as -> -> _. done.
  - unfold timerFires. destruct (st_saveTimer st); [|done].
    cbn [st_isSaving st_project setSaveTimer].
    destruct (st_isSaving st) eqn:Hsaving; cbn [orb];
      [simpl; by rewrite Hsaving|].
    destruct (projectReady (st_project st)); cbn [negb];
      [|simpl; by rewrite Hsaving].
    simpl. rewrite length_app. simpl. lia.
  - unfold saveSettles. destruct (st_inFlight st) as [|first rest] eqn:Hfl;
      [by rewrite Hfl|].
    destruct (st_isSaving st); simpl in Hinv; [|done].
    destruct rest; [|done]. by destruct response.
Qed.

Lemma run_oneInFlight events st :
  oneInFlight st → oneInFlight (run nanoid events st).
Proof.
  unfold run. revert st.
  induction events as [|ev events IH]; intros st Hinv; [done|].
  simpl. by apply IH, step_oneInFlight.
Qed.

Lemma timerFires_while_saving st :
  st_isSaving st = true → timerFires st = setSaveTimer None st.
Proof.
  intros Hsaving. unfold timerFires.
  destruct st as [? ? ? ? ? ? ? [timer|] ? ? ? ? ? ?];
    simpl in *; by subst.
Qed.

(** With no timer pending, timers and responses send nothing and leave
    the graph alone. *)
Lemma background_events_send_nothing later st :
  st_saveTimer st = None →
  forallb isBackground later = true →
  st_issued (run nanoid later st) = st_issued st ∧
  st_saveTimer (run nanoid later st) = None ∧
  st_nodes (run nanoid later st) = st_nodes st ∧
  st_edges (run nanoid later st) = st_edges st.
Proof.
  unfold run. revert st.
  induction later as [|ev later IH]; intros st Htimer Hquiet; [done|].
  simpl in Hquiet. apply andb_prop in Hquiet as [Hev Hquiet]. simpl.
  assert (st_issued (step nanoid st ev) = st_issued st ∧
          st_saveTimer (step nanoid st ev) = None ∧
          st_nodes (step nanoid st ev) = st_nodes st ∧
          st_edges (step nanoid st ev) = st_edges st)
    as (Hissued & Htimer' & Hnodes & Hedges).
  { destruct ev as [g| |response now]; simpl; [done| |].
    - unfold timerFires. by rewrite Htimer.
    - unfold saveSettles. destruct (st_inFlight st); [done|].
      by destruct response. }
  destruct (IH (step nanoid st ev)) as (-> & -> & -> & ->); done.
Qed.

(** C7, as the code has it.  At most one save request is in flight at a
    time.  When the timer fires while a save is in flight, the debounced
    function returns at once: it sends nothing and does not start the
    timer again, and no later timer or response sends the skipped save;
    only a further call of [save] does. *)
Theorem save_skipped_while_in_flight
    (events later : list Event) (st0 : Canvas) :
  st_isSaving st0 = false → st_inFlight st0 = [] →
  forallb isBackground later = true →
  length (st_inFlight (run nanoid events st0)) ≤ 1 ∧
  (st_isSaving (run nanoid events st0) = true →
   timerFires (run nanoid events st0)
   = setSaveTimer None (run nanoid events st0) ∧
   st_issued (run nanoid later (timerFires (run nanoid events st0)))
   = st_issued (run nanoid events st0)).
Proof.
  intros Hidle Hnone Hquiet. split.
  - assert (oneInFlight (run nanoid events st0)) as Hinv.
    { apply run_oneInFlight. unfold oneInFlight. by rewrite Hidle, Hnone. }
    unfold oneInFlight in Hinv. rewrite Hinv.
    destruct (st_isSaving (run nanoid events st0)); lia.
  - intros Hsaving. rewrite (timerFires_while_saving _ Hsaving).
    split; [done|].
    by destruct (background_events_send_nothing later
                   (setSaveTimer None (run nanoid events st0)))
      as (-> & _).
Qed.

End PersistenceProofs.

Lemma save_skipped_while_in_flight_witness :
  let events :=
    [UserGesture (AddNode "text" noOptions); TimerFires;
     UserGesture (NodesChange [NodeRemoveChange "A"])] in
  length (st_inFlight (run sampleNanoid events canvasWithCopy)) ≤ 1 ∧
  (st_isSaving (run sampleNanoid events canvasWithCopy) = true →
   timerFires (run sampleNanoid events canvasWithCopy)
   = setSaveTimer None (run sampleNanoid events canvasWithCopy) ∧
   st_issued (run sampleNanoid
                [TimerFires; SaveSettles ResponseOk 7; TimerFires]
                (timerFires (run sampleNanoid events canvasWithCopy)))
   = st_issued (run sampleNanoid events canvasWithCopy)).
Proof.
  apply (save_skipped_while_in_flight sampleNanoid); reflexivity.
Defined.

(** C7 as stated fails: the timer fires while the first save is in flight,
    and from then on no timer or response ever sends a second request,
    though the one request sent holds a graph older than the current one. *)
Lemma fired_save_is_dropped :
  let st :=
    run sampleNanoid
      [UserGesture (AddNode "text" noOptions); TimerFires;
       UserGesture (NodesChange [NodeRemoveChange "A"])] canvasWithCopy in
  st_isSaving st = true ∧ st_saveTimer st = Some 1000 ∧
  (∀ snapshot, snapshot ∈ st_inFlight st → snap_nodes snapshot ≠ st_nodes st) ∧
  ∀ later, forallb isBackground later = true →
    st_issued (run sampleNanoid later (timerFires st)) = 1 ∧
    st_nodes (run sampleNanoid later (timerFires st)) = st_nodes st.
Proof.
  split; [reflexivity|]. split; [reflexivity|]. split.
  - intros snapshot Hin. apply list_elem_of_singleton in Hin. subst snapshot.
    by vm_compute.
  - intros later Hquiet.
    by destruct (background_events_send_nothing sampleNanoid later
                   (timerFires
                      (run sampleNanoid
                         [UserGesture (AddNode "text" noOptions); TimerFires;
                          UserGesture (NodesChange [NodeRemoveChange "A"])]
                         canvasWithCopy)))
      as (-> & _ & -> & _).
Qed.

(** C6 fails on the code: pasting the copied nodes and select-all both
    change the node collection and leave the save timer unset, where
    [addNode], [handleConnect] and the change handlers call [save]. *)
Theorem paste_and_select_all_skip_save :
  (st_nodes (handlePaste sampleNanoid pasteNoImage canvasWithCopy)
   ≠ st_nodes canvasWithCopy ∧
   st_saveTimer (handlePaste sampleNanoid pasteNoImage canvasWithCopy) = None) ∧
  (st_nodes (handleSelectAll canvasWithCopy) ≠ st_nodes canvasWithCopy ∧
   st_saveTimer (handleSelectAll canvasWithCopy) = None).
Proof. split; (split; [by vm_compute|reflexivity]). Qed.

(** * Further properties *)

(** ** What the validator lets through *)

(** X1.  A candidate whose source is its target is rejected, whatever the
    graph and the compatibility rule. *)
Theorem isValidConnection_rejects_self_loop
    (isValidSourceTarget : Node → Node → bool)
    (nodes : list Node) (edges : list Edge) (connection : Connection) :
  conn_source connection = conn_target connection →
  isValidConnection isValidSourceTarget nodes edges connection = Some false.
Proof.
  intros Hself.
  destruct (isValidConnection_total isValidSourceTarget nodes edges connection)
    as [[] Hanswer]; [|done].
  apply isValidConnection_true_iff in Hanswer
    as [(target & Htarget & Hne & _) _].
  apply findNode_Some in Htarget as [_ Hid]. congruence.
Qed.

Lemma isValidConnection_rejects_self_loop_witness :
  isValidConnection (λ _ _, true) (fst imageToTranscribe)
    (snd imageToTranscribe) (sampleConnection "A" "A") = Some false.
Proof. by apply isValidConnection_rejects_self_loop. Defined.

(** X2.  An accepted candidate ends in a node of the collection, is no
    self-loop, starts (when it names a source) in a node of the collection
    that the compatibility rule lets feed the target, and closes no cycle: no
    path leads from its target back to its source. *)
Theorem isValidConnection_accepts_only_checked
    (isValidSourceTarget : Node → Node → bool)
    (nodes : list Node) (edges : list Edge) (connection : Connection) :
  isValidConnection isValidSourceTarget nodes edges connection = Some true →
  conn_target connection ∈ node_ids nodes ∧
  conn_source connection ≠ conn_target connection ∧
  (conn_source connection ≠ "" →
   ∃ source target,
     source ∈ nodes ∧ node_id source = conn_source connection ∧
     target ∈ nodes ∧ node_id target = conn_target connection ∧
     isValidSourceTarget source target = true) ∧
  ¬ tc (connects anyEdge nodes edges)
       (conn_target connection) (conn_source connection).
Proof.
  intros [(target & Htarget & Hself & Hcompat) Hnone]%isValidConnection_true_iff.
  pose proof (findNode_Some _ _ _ Htarget) as [Hin Hid].
  split; [rewrite <- Hid; apply list_elem_of_fmap; by eauto|].
  split; [congruence|]. split; [|done].
  intros Hsource. destruct (Hcompat Hsource) as (source & Hs & Hok).
  apply findNode_Some in Hs as [Hsin Hsid]. by exists source, target.
Qed.

Lemma isValidConnection_accepts_only_checked_witness :
  "B" ∈ node_ids (fst imageToTranscribe) ∧
  ¬ tc (connects anyEdge (fst imageToTranscribe) (snd imageToTranscribe))
       "B" "A".
Proof.
  destruct (isValidConnection_accepts_only_checked audioFeedsTranscribeOnly
              (fst imageToTranscribe) (snd imageToTranscribe)
              (sampleConnection "A" "B")) as (Htarget & _ & _ & Hnone).
  - reflexivity.
  - by split.
Defined.

Lemma connects_app nodes edges e u v :
  connects anyEdge nodes (edges ++ [e]) u v →
  connects anyEdge nodes edges u v ∨ (u = edge_source e ∧ v = edge_target e).
Proof.
  intros (Hu & Hv & e' & [He'|He']%elem_of_app & _ & Hs & Ht).
  - left. split; [done|]. split; [done|]. by exists e'.
  - apply list_elem_of_singleton in He'. subst e'. by right.
Qed.

(** A path in a relation with one more pair either is a path without that
    pair or runs through it. *)
Lemma tc_one_more {A} (R R' : relation A) (s t : A) :
  (∀ u v, R' u v → R u v ∨ (u = s ∧ v = t)) →
  ∀ x y, tc R' x y → tc R x y ∨ (rtc R x s ∧ rtc R t y).
Proof.
  intros Hsub x y Hpath.
  induction Hpath as [x y Hxy|x y z Hxy _ [IH|[IHs IHt]]].
  - destruct (Hsub _ _ Hxy) as [?|[-> ->]]; [left; by apply tc_once|].
    by right.
  - destruct (Hsub _ _ Hxy) as [?|[-> ->]]; [left; by eapply tc_l|].
    right. split; [done|]. by apply tc_rtc.
  - destruct (Hsub _ _ Hxy) as [?|[-> ->]]; [|by right].
    right. split; [by eapply rtc_l|done].
Qed.

Section ConnectProofs.

Variable nanoid : nat → string.
Variable isValidSourceTarget : Node → Node → bool.

(** X3.  Committing a connection the validator has accepted keeps the graph
    free of cycles. *)
Theorem validated_connect_keeps_acyclic (connection : Connection)
    (st : Canvas) :
  acyclic (st_nodes st) (st_edges st) →
  isValidConnection isValidSourceTarget (st_nodes st) (st_edges st) connection
  = Some true →
  acyclic (st_nodes (handleConnect nanoid connection st))
          (st_edges (handleConnect nanoid connection st)).
Proof.
  intros Hacyclic Hvalid u Hcycle.
  apply isValidConnection_true_iff in Hvalid
    as [(target & Htarget & Hself & _) Hnone].
  apply findNode_Some in Htarget as [_ Hid].
  apply (tc_one_more (connects anyEdge (st_nodes st) (st_edges st)) _
           (conn_source connection) (conn_target connection)) in Hcycle.
  - destruct Hcycle as [Hold|[Hto Hfrom]]; [by apply (Hacyclic u)|].
    assert (rtc (connects anyEdge (st_nodes st) (st_edges st))
                (conn_target connection) (conn_source connection)) as Hback
      by (by etrans).
    apply rtc_tc in Hback as [Heq|Htc]; [congruence|done].
  - intros a b Hab. simpl in Hab. by apply connects_app in Hab.
Qed.

(** X4.  Once a connection from a node with an id to a node of the collection
    is committed, the connection the other way round is rejected. *)
Theorem connect_blocks_reverse (connection : Connection) (st : Canvas) :
  conn_source connection ≠ "" →
  conn_target connection ∈ node_ids (st_nodes st) →
  isValidConnection isValidSourceTarget
    (st_nodes (handleConnect nanoid connection st))
    (st_edges (handleConnect nanoid connection st))
    {| conn_source := conn_target connection;
       conn_target := conn_source connection;
       conn_sourceHandle := conn_targetHandle connection;
       conn_targetHandle := conn_sourceHandle connection |}
  = Some false.
Proof.
  intros Hsource Htarget.
  match goal with
  | |- isValidConnection ?f ?ns ?es ?c = _ =>
      destruct (isValidConnection_total f ns es c) as [[] Hanswer]; [|done]
  end.
  apply isValidConnection_true_iff in Hanswer as [_ Hnone].
  destruct Hnone. apply tc_once. split; [done|]. split; [done|].
  eexists. split; [apply elem_of_app; right; by left|]. by repeat split.
Qed.

End ConnectProofs.

Lemma validated_connect_keeps_acyclic_witness :
  acyclic (fst imageToTranscribe)
    (st_edges (handleConnect sampleNanoid (sampleConnection "A" "B")
                 (sampleCanvas (fst imageToTranscribe) [] []))).
Proof.
  apply (validated_connect_keeps_acyclic sampleNanoid audioFeedsTranscribeOnly
           (sampleConnection "A" "B")
           (sampleCanvas (fst imageToTranscribe) [] [])).
  - intros u (z & _ & _ & e & He & _)%tc_first_step.
    by apply elem_of_nil in He.
  - reflexivity.
Defined.

Lemma connect_blocks_reverse_witness :
  isValidConnection audioFeedsTranscribeOnly (fst imageToTranscribe)
    (st_edges (handleConnect sampleNanoid (sampleConnection "A" "B")
                 (sampleCanvas (fst imageToTranscribe) [] [])))
    (sampleConnection "B" "A")
  = Some false.
Proof.
  apply (connect_blocks_reverse sampleNanoid audioFeedsTranscribeOnly
           (sampleConnection "A" "B")
           (sampleCanvas (fst imageToTranscribe) [] [])).
  - done.
  - apply list_elem_of_In. right. by left.
Defined.

(** ** Dragging a connection onto the pane *)

Lemma filter_all {A} (P : A → Prop) `{!∀ x, Decision (P x)} (l : list A) :
  (∀ x, x ∈ l → P x) → filter P l = l.
Proof.
  intros Hall. induction l as [|x l IH]; [done|].
  rewrite filter_cons_True by (apply Hall; by left).
  f_equal. apply IH. intros y Hy. apply Hall. by right.
Qed.

Section DragProofs.

Variable nanoid : nat → string.

(** X5.  A drag that starts and is dropped on the pane leaves exactly one
    placeholder and exactly one temporary edge, whatever earlier drags and
    double-clicks had left: the placeholder sits where the pointer was
    released, and the edge links it to the node the drag came from, in the
    direction of the handle that was dragged. *)
Theorem drag_leaves_one_placeholder
    (clientX clientY : Q) (sourceId : string) (isSourceHandle : bool)
    (st : Canvas) :
  sourceId ≠ "" →
  ∃ placeholder temporary,
    filter (λ n, node_type n = Some "drop")
      (st_nodes (handleConnectEnd nanoid false clientX clientY (Some sourceId)
                   isSourceHandle (handleConnectStart st)))
    = [placeholder] ∧
    filter (λ e, edge_type e = Some "temporary")
      (st_edges (handleConnectEnd nanoid false clientX clientY (Some sourceId)
                   isSourceHandle (handleConnectStart st)))
    = [temporary] ∧
    node_position placeholder
    = screenToFlowPosition (st_viewport st) clientX clientY ∧
    edge_source temporary
    = (if isSourceHandle then sourceId else node_id placeholder) ∧
    edge_target temporary
    = (if isSourceHandle then node_id placeholder else sourceId).
Proof.
  intros Hsource. apply truthy_spec in Hsource.
  unfold handleConnectEnd. rewrite Hsource.
  cbn [addNode st_nodes st_edges setEdges setNodes drawn track save
       setSaveTimer handleConnectStart st_viewport st_nanoidCalls
       default from_option opt_type opt_data opt_position opt_selected
       opt_origin node_id].
  eexists. eexists.
  rewrite !filter_app, !filter_cons_True, !filter_nil by done.
  rewrite (filter_none (λ n, node_type n = Some "drop")).
  2:{ intros n [Hn _]%list_elem_of_filter. done. }
  rewrite (filter_none (λ e, edge_type e = Some "temporary")).
  2:{ intros e [He _]%list_elem_of_filter. done. }
  split; [reflexivity|]. split; [reflexivity|]. by destruct isSourceHandle.
Qed.

(** X6.  Dropping a connection on the pane and then starting the next drag
    puts nodes and edges back as they were, when the canvas held no
    placeholder and no temporary edge before. *)
Theorem next_drag_undoes_drop
    (isValid : bool) (clientX clientY : Q) (fromNode : option string)
    (isSourceHandle : bool) (st : Canvas) :
  (∀ n, n ∈ st_nodes st → node_type n ≠ Some "drop") →
  (∀ e, e ∈ st_edges st → edge_type e ≠ Some "temporary") →
  st_nodes (handleConnectStart
              (handleConnectEnd nanoid isValid clientX clientY fromNode
                                isSourceHandle st))
  = st_nodes st ∧
  st_edges (handleConnectStart
              (handleConnectEnd nanoid isValid clientX clientY fromNode
                                isSourceHandle st))
  = st_edges st.
Proof.
  intros Hnodes Hedges.
  assert (st_nodes (handleConnectStart st) = st_nodes st ∧
          st_edges (handleConnectStart st) = st_edges st) as Hsame.
  { simpl. by rewrite !filter_all. }
  unfold handleConnectEnd. destruct isValid; [done|].
  destruct fromNode as [sourceId|]; [|done].
  destruct (truthy sourceId); [|done].
  cbn [addNode st_nodes st_edges setEdges setNodes drawn track save
       setSaveTimer handleConnectStart].
  rewrite !filter_app, !filter_all by done.
  rewrite !filter_cons_False, !filter_nil by (intros Hne; by apply Hne).
  rewrite !app_nil_r. split; [|by apply filter_all]. by rewrite ?filter_all.
Qed.

End DragProofs.

Lemma drag_leaves_one_placeholder_witness :
  ∃ placeholder temporary,
    filter (λ n, node_type n = Some "drop")
      (st_nodes (handleConnectEnd sampleNanoid false 300 200 (Some "A") true
                   (handleConnectStart
                      (sampleCanvas (fst textWithPlaceholder)
                                    (snd textWithPlaceholder) []))))
    = [placeholder] ∧
    filter (λ e, edge_type e = Some "temporary")
      (st_edges (handleConnectEnd sampleNanoid false 300 200 (Some "A") true
                   (handleConnectStart
                      (sampleCanvas (fst textWithPlaceholder)
                                    (snd textWithPlaceholder) []))))
    = [temporary] ∧
    edge_source temporary = "A" ∧ edge_target temporary = node_id placeholder.
Proof.
  destruct (drag_leaves_one_placeholder sampleNanoid 300 200 "A" true
              (sampleCanvas (fst textWithPlaceholder)
                            (snd textWithPlaceholder) []))
    as (placeholder & temporary & Hnodes & Hedges & _ & Hsource & Htarget);
    [done|].
  by exists placeholder, temporary.
Defined.

Lemma next_drag_undoes_drop_witness :
  st_nodes (handleConnectStart
              (handleConnectEnd sampleNanoid false 300 200 (Some "A") true
                 (sampleCanvas (fst imageToTranscribe)
                               (snd imageToTranscribe) [])))
  = fst imageToTranscribe ∧
  st_edges (handleConnectStart
              (handleConnectEnd sampleNanoid false 300 200 (Some "A") true
                 (sampleCanvas (fst imageToTranscribe)
                               (snd imageToTranscribe) [])))
  = snd imageToTranscribe.
Proof.
  apply (next_drag_undoes_drop sampleNanoid false 300 200 (Some "A") true
           (sampleCanvas (fst imageToTranscribe) (snd imageToTranscribe) [])).
  - intros n Hn. apply list_elem_of_In in Hn.
    destruct Hn as [<-|[<-|[]]]; discriminate.
  - intros e He. apply list_elem_of_In in He.
    destruct He as [<-|[]]; discriminate.
Defined.

(** ** Copy and paste *)

(** X7.  Copying never touches the graph.  It remembers the selected nodes;
    with nothing selected it changes nothing at all, so an earlier copy stays
    available. *)
Theorem handleCopy_keeps_earlier_copy (st : Canvas) :
  st_nodes (handleCopy st) = st_nodes st ∧
  st_edges (handleCopy st) = st_edges st ∧
  (∀ n, n ∈ st_copiedNodes (handleCopy st) →
        n ∈ st_copiedNodes st ∨ (n ∈ st_nodes st ∧ node_selected n = true)) ∧
  (∀ n, n ∈ st_nodes st → node_selected n = true →
        st_copiedNodes (handleCopy st)
        = filter (λ node, node_selected node = true) (st_nodes st)) ∧
  ((∀ n, n ∈ st_nodes st → node_selected n = false) → handleCopy st = st).
Proof.
  unfold handleCopy.
  destruct (filter _ (st_nodes st)) as [|first selected] eqn:Hselected.
  - repeat (split; [by auto|]). split; [|done].
    intros n Hn Hsel.
    assert (n ∈ filter (λ node, node_selected node = true) (st_nodes st))
      as Hin by (by apply list_elem_of_filter).
    rewrite Hselected in Hin. by apply elem_of_nil in Hin.
  - split; [done|]. split; [done|]. split; [|split; [done|]].
    + intros n Hn. right. simpl in Hn. rewrite <- Hselected in Hn.
      by apply list_elem_of_filter in Hn as [? ?].
    + intros Hnone.
      assert (first ∈ filter (λ node, node_selected node = true) (st_nodes st))
        as [Hsel Hin]%list_elem_of_filter by (rewrite Hselected; by left).
      rewrite (Hnone first Hin) in Hsel. done.
Qed.

Lemma handleCopy_selected st :
  filter (λ node, node_selected node = true) (st_nodes st) ≠ [] →
  handleCopy st
  = setCopiedNodes (filter (λ node, node_selected node = true) (st_nodes st))
                   st.
Proof. unfold handleCopy. by destruct (filter _ _). Qed.

Section PasteProofs.

Variable nanoid : nat → string.

(** The clipboard has no image to offer: it cannot be read at all, or
    none of its items has an image type. *)
Lemma tryPasteImage_no_image env st :
  env_clipboard env = ClipboardUnsupported ∨
  (∃ items, env_clipboard env = ClipboardItems items ∧
            Forall (λ item, imageTypes item = []) items) →
  tryPasteImage nanoid env st = NoImage.
Proof.
  unfold tryPasteImage. intros [->|(items & -> & Hnone)]; [done|].
  induction Hnone as [|item items Hitem _ IH]; [done|].
  simpl. by rewrite Hitem.
Qed.

Lemma pasteCopiedNodes_nodes st :
  st_copiedNodes st ≠ [] →
  ∃ clones,
    st_nodes (pasteCopiedNodes nanoid st)
    = (withSelected false <$> st_nodes st) ++ clones ∧
    length clones = length (st_copiedNodes st) ∧
    (∀ i node,
       st_copiedNodes st !! i = Some node →
       clones !! i
       = Some {| node_id := nanoid (st_nanoidCalls st + i);
                 node_type := node_type node;
                 node_data := node_data node;
                 node_position :=
                   {| pos_x := (pos_x (node_position node) + 200)%Q;
                      pos_y := (pos_y (node_position node) + 200)%Q |};
                 node_selected := true;
                 node_origin := node_origin node |}) ∧
    st_edges (pasteCopiedNodes nanoid st) = st_edges st ∧
    st_copiedNodes (pasteCopiedNodes nanoid st) = st_copiedNodes st.
Proof.
  intros Hcopied. unfold pasteCopiedNodes.
  destruct (st_copiedNodes st) as [|first more] eqn:Heq; [done|].
  eexists. split; [reflexivity|]. split; [by rewrite length_imap|].
  split; [|done].
  intros i node Hi. rewrite list_lookup_imap, Hi. done.
Qed.

(** X8.  A paste that finds no image on the clipboard appends one clone per
    copied node: under a new id, at the copied node's position plus (200,
    200), selected, with its kind and data.  Every node that was there is
    deselected; no edge is added, not even between clones of connected nodes;
    and the copy stays as it was, so a second paste lands on the same spot. *)
Theorem paste_clones_copied_nodes (env : PasteEnv) (st : Canvas) :
  isTyping (env_activeElement env) = false →
  env_clipboard env = ClipboardUnsupported ∨
  (∃ items, env_clipboard env = ClipboardItems items ∧
            Forall (λ item, imageTypes item = []) items) →
  st_copiedNodes st ≠ [] →
  ∃ clones,
    st_nodes (handlePaste nanoid env st)
    = (withSelected false <$> st_nodes st) ++ clones ∧
    length clones = length (st_copiedNodes st) ∧
    (∀ i node,
       st_copiedNodes st !! i = Some node →
       ∃ clone,
         clones !! i = Some clone ∧
         node_id clone = nanoid (st_nanoidCalls st + i) ∧
         node_position clone
         = {| pos_x := (pos_x (node_position node) + 200)%Q;
              pos_y := (pos_y (node_position node) + 200)%Q |} ∧
         node_selected clone = true ∧
         node_type clone = node_type node ∧
         node_data clone = node_data node) ∧
    st_edges (handlePaste nanoid env st) = st_edges st ∧
    st_copiedNodes (handlePaste nanoid env st) = st_copiedNodes st.
Proof.
  intros Hfocus Hclipboard Hcopied.
  unfold handlePaste.
  rewrite Hfocus, (tryPasteImage_no_image env st Hclipboard).
  destruct (pasteCopiedNodes_nodes st Hcopied)
    as (clones & Hnodes & Hlength & Hclone & Hedges & Hcopy).
  exists clones. repeat (split; [done|]). split; [|done].
  intros i node Hi. eexists. split; [by apply Hclone|]. done.
Qed.

(** X9.  A paste that finds neither an image nor copied nodes changes nothing:
    the selection stays too. *)
Theorem paste_of_nothing_changes_nothing (env : PasteEnv) (st : Canvas) :
  isTyping (env_activeElement env) = false →
  env_clipboard env = ClipboardUnsupported ∨
  (∃ items, env_clipboard env = ClipboardItems items ∧
            Forall (λ item, imageTypes item = []) items) →
  st_copiedNodes st = [] →
  handlePaste nanoid env st = st.
Proof.
  intros Hfocus Hclipboard Hcopied. unfold handlePaste.
  rewrite Hfocus, (tryPasteImage_no_image env st Hclipboard).
  unfold pasteCopiedNodes. by rewrite Hcopied.
Qed.

(** X10.  Select all, copy, paste: the canvas then holds twice as many nodes,
    and the same edges as before. *)
Theorem select_all_copy_paste_doubles (env : PasteEnv) (st : Canvas) :
  isTyping (env_activeElement env) = false →
  env_clipboard env = ClipboardUnsupported ∨
  (∃ items, env_clipboard env = ClipboardItems items ∧
            Forall (λ item, imageTypes item = []) items) →
  st_nodes st ≠ [] →
  length (st_nodes (handlePaste nanoid env (handleCopy (handleSelectAll st))))
  = 2 * length (st_nodes st) ∧
  st_edges (handlePaste nanoid env (handleCopy (handleSelectAll st)))
  = st_edges st.
Proof.
  intros Hfocus Hclipboard Hnodes.
  assert (filter (λ node, node_selected node = true)
                 (st_nodes (handleSelectAll st))
          = st_nodes (handleSelectAll st)) as Hall.
  { apply filter_all. simpl. by intros n (m & -> & _)%list_elem_of_fmap. }
  assert (st_copiedNodes (handleCopy (handleSelectAll st))
          = withSelected true <$> st_nodes st ∧
          st_nodes (handleCopy (handleSelectAll st))
          = withSelected true <$> st_nodes st ∧
          st_edges (handleCopy (handleSelectAll st)) = st_edges st)
    as (Hcopied & Hsame & Hedges).
  { rewrite handleCopy_selected; [by rewrite Hall|].
    rewrite Hall. simpl. by intros ?%fmap_nil_inv. }
  unfold handlePaste.
  rewrite Hfocus, (tryPasteImage_no_image env _ Hclipboard).
  destruct (pasteCopiedNodes_nodes (handleCopy (handleSelectAll st)))
    as (clones & -> & Hlength & _ & -> & _).
  { rewrite Hcopied. by intros ?%fmap_nil_inv. }
  rewrite Hedges. split; [|done].
  rewrite length_app, Hlength, Hcopied, Hsame, !length_fmap. lia.
Qed.

(** X11.  The paste event adds at most one node, an image node, and never
    pastes the copied nodes: edges and the copy are left alone. *)
Theorem paste_event_adds_at_most_an_image
    (env : PasteEnv) (target : Element)
    (items : option (list DataTransferItem)) (st : Canvas) :
  (st_nodes (handlePasteEvent nanoid env target items st) = st_nodes st ∨
   ∃ image,
     st_nodes (handlePasteEvent nanoid env target items st)
     = st_nodes st ++ [image] ∧
     node_type image = Some "image") ∧
  st_edges (handlePasteEvent nanoid env target items st) = st_edges st ∧
  st_copiedNodes (handlePasteEvent nanoid env target items st)
  = st_copiedNodes st.
Proof.
  unfold handlePasteEvent. destruct (isTyping target); [by auto|].
  destruct items as [items|]; [|by auto].
  induction items as [|item items IH]; simpl; [by auto|].
  destruct (String.prefix "image/" (dti_type item)); [|done].
  destruct (dti_getAsFile item) as [file|]; [|done].
  unfold handlePasteImage.
  destruct (env_uploadFile env file) as [uploaded|]; [|by auto].
  simpl. split; [|done]. right. by eexists.
Qed.

End PasteProofs.

Lemma paste_clones_copied_nodes_witness :
  ∃ clones,
    st_nodes (handlePaste sampleNanoid pasteNoImage canvasWithCopy)
    = (withSelected false <$> st_nodes canvasWithCopy) ++ clones ∧
    length clones = 1.
Proof.
  destruct (paste_clones_copied_nodes sampleNanoid pasteNoImage canvasWithCopy)
    as (clones & Hnodes & Hlength & _).
  - reflexivity.
  - right. by exists [].
  - done.
  - by exists clones.
Defined.

Lemma paste_of_nothing_changes_nothing_witness :
  handlePaste sampleNanoid pasteNoImage
    (sampleCanvas (fst imageToTranscribe) (snd imageToTranscribe) [])
  = sampleCanvas (fst imageToTranscribe) (snd imageToTranscribe) [].
Proof.
  apply paste_of_nothing_changes_nothing.
  - reflexivity.
  - right. by exists [].
  - reflexivity.
Defined.

Lemma select_all_copy_paste_doubles_witness :
  length (st_nodes (handlePaste sampleNanoid pasteNoImage
                      (handleCopy (handleSelectAll canvasWithCopy))))
  = 2 * length (st_nodes canvasWithCopy) ∧
  st_edges (handlePaste sampleNanoid pasteNoImage
              (handleCopy (handleSelectAll canvasWithCopy)))
  = st_edges canvasWithCopy.
Proof.
  apply select_all_copy_paste_doubles.
  - reflexivity.
  - right. by exists [].
  - done.
Defined.

Lemma split_no_separator (sep : ascii) (s : string) :
  Forall (λ ch, ch ≠ sep) (list_ascii_of_string s) → split sep s = [s].
Proof.
  induction s as [|ch s IH]; simpl; [done|].
  intros [Hch Hrest]%Forall_cons.
  destruct (Ascii.eqb_spec ch sep) as [|_]; [done|]. by rewrite IH.
Qed.

(** X12.  The name of the pasted file takes its extension from the image type:
    what follows the slash, or [png] when nothing does. *)
Theorem clipboardFileName_extension (extension : string) :
  Forall (λ ch, ch ≠ "/"%char) (list_ascii_of_string extension) →
  clipboardFileName ("image/" +:+ extension)
  = "clipboard-image." +:+ (if decide (extension = "") then "png"
                            else extension).
Proof.
  intros Hplain. unfold clipboardFileName. simpl.
  change ("" +:+ extension) with extension.
  rewrite (split_no_separator _ _ Hplain). simpl. unfold truthy.
  destruct (String.eqb_spec extension "") as [->|Hne];
    destruct (decide _); done.
Qed.

Lemma clipboardFileName_extension_witness :
  clipboardFileName "image/svg+xml" = "clipboard-image.svg+xml".
Proof.
  apply (clipboardFileName_extension "svg+xml").
  repeat (constructor; [discriminate|]). constructor.
Defined.

(** ** What gestures leave alone *)

Section Frame.

Variable nanoid : nat → string.

(** Any part of the state that the setters of the graph, the timer, the
    console, the analytics and the id counter do not write... *)
Context {X : Type} (view : Canvas → X).
Hypothesis view_setNodes : ∀ f st, view (setNodes f st) = view st.
Hypothesis view_setEdges : ∀ f st, view (setEdges f st) = view st.
Hypothesis view_setCopiedNodes :
  ∀ copied st, view (setCopiedNodes copied st) = view st.
Hypothesis view_setSaveTimer :
  ∀ timer st, view (setSaveTimer timer st) = view st.
Hypothesis view_consoleDebug :
  ∀ message st, view (consoleDebug message st) = view st.
Hypothesis view_track : ∀ event st, view (track event st) = view st.
Hypothesis view_drawn : ∀ n st, view (drawn n st) = view st.

Local Ltac frame :=
  repeat first
    [ rewrite view_setNodes | rewrite view_setEdges
    | rewrite view_setCopiedNodes | rewrite view_setSaveTimer
    | rewrite view_consoleDebug | rewrite view_track | rewrite view_drawn ].

Lemma view_addNode type options st :
  view (fst (addNode nanoid type options st)) = view st.
Proof. unfold addNode, save. cbn [fst]. by frame. Qed.

Lemma view_updateNode id selected st :
  view (updateNode id selected st) = view st.
Proof.
  unfold updateNode, handleNodesChange, save.
  destruct (existsb _ _); [|done]. by frame.
Qed.

Lemma view_runDeferred deferred st :
  view (foldl runDeferred st deferred) = view st.
Proof.
  revert st. induction deferred as [|d deferred IH]; intros st; [done|].
  simpl. rewrite IH. unfold runDeferred. by rewrite !view_updateNode.
Qed.

Lemma view_duplicateNode id st :
  view (fst (duplicateNode nanoid id st)) = view st.
Proof.
  unfold duplicateNode.
  destruct (getNode id (st_nodes st)) as [node|]; [|done].
  destruct (node_type node) as [type|]; [|done].
  destruct (truthy type); [|done].
  pose proof (view_addNode type
    {| opt_data := Some (node_data node); opt_type := Some type;
       opt_position :=
         Some {| pos_x := (pos_x (node_position node) + 200)%Q;
                 pos_y := (pos_y (node_position node) + 200)%Q |};
       opt_selected := Some true; opt_origin := node_origin node |} st)
    as Hadd.
  by destruct (addNode _ _ _ _).
Qed.

Lemma view_handleDuplicateAll st :
  view (handleDuplicateAll nanoid st) = view st.
Proof.
  unfold handleDuplicateAll.
  generalize (filter (λ node, node_selected node = true) (st_nodes st)).
  intros selected.
  assert (∀ acc,
    view (fst (foldl (λ '(st, deferred) node,
                 let '(st, more) := duplicateNode nanoid (node_id node) st
                 in (st, deferred ++ more)) acc selected))
    = view (fst acc)) as Hfold.
  { induction selected as [|node selected IH]; intros [st' deferred];
      [done|]. simpl. rewrite IH.
    pose proof (view_duplicateNode (node_id node) st') as Hdup.
    by destruct (duplicateNode nanoid (node_id node) st'). }
  specialize (Hfold (st, [])).
  destruct (foldl _ (st, []) selected) as [st' deferred].
  by rewrite view_runDeferred.
Qed.

Lemma view_handlePasteImage env file st st' :
  handlePasteImage nanoid env file st = Some st' → view st' = view st.
Proof.
  unfold handlePasteImage.
  destruct (env_uploadFile env file) as [uploaded|]; [|done].
  match goal with
  | |- context [addNode nanoid ?type ?options st] =>
      pose proof (view_addNode type options st) as Hadd;
      destruct (addNode nanoid type options st) as [st1 newId]
  end.
  intros [= <-]. by frame.
Qed.

Lemma view_pasteCopiedNodes st :
  view (pasteCopiedNodes nanoid st) = view st.
Proof.
  unfold pasteCopiedNodes. destruct (st_copiedNodes st); [done|]. by frame.
Qed.

Lemma view_handlePaste env st : view (handlePaste nanoid env st) = view st.
Proof.
  unfold handlePaste.
  destruct (isTyping (env_activeElement env)); [done|].
  destruct (tryPasteImage nanoid env st) as [st'| |error] eqn:Htry.
  - unfold tryPasteImage in Htry.
    destruct (env_clipboard env) as [|reason|items]; [done..|].
    induction items as [|item items IH]; simpl in Htry; [done|].
    destruct (imageTypes item) as [|imageType more]; [by apply IH|].
    destruct (item_getType item imageType) as [blob|]; [|done].
    destruct (handlePasteImage nanoid env _ st) as [st''|] eqn:Himage;
      [|done].
    simplify_eq. by eapply view_handlePasteImage.
  - apply view_pasteCopiedNodes.
  - by rewrite view_pasteCopiedNodes, view_consoleDebug.
Qed.

Lemma view_handlePasteEvent env target items st :
  view (handlePasteEvent nanoid env target items st) = view st.
Proof.
  unfold handlePasteEvent. destruct (isTyping target); [done|].
  destruct items as [items|]; [|done].
  destruct (pasteEventItems nanoid env items st) as [st'|] eqn:Hloop;
    [|done].
  simpl. induction items as [|item items IH]; simpl in Hloop.
  - by simplify_eq.
  - destruct (String.prefix "image/" (dti_type item)); [|by apply IH].
    destruct (dti_getAsFile item) as [file|]; [|by apply IH].
    by eapply view_handlePasteImage.
Qed.

Lemma view_handleConnectEnd isValid clientX clientY fromNode isSourceHandle
    st :
  view (handleConnectEnd nanoid isValid clientX clientY fromNode
                         isSourceHandle st)
  = view st.
Proof.
  unfold handleConnectEnd. destruct isValid; [done|].
  destruct fromNode as [sourceId|]; [|done].
  destruct (truthy sourceId); [|done].
  match goal with
  | |- context [addNode nanoid ?type ?options st] =>
      pose proof (view_addNode type options st) as Hadd;
      destruct (addNode nanoid type options st) as [st1 newId]
  end.
  by frame.
Qed.

(** ... is left as it was by every gesture. *)
Lemma view_perform g st : view (perform nanoid g st) = view st.
Proof.
  destruct g; simpl.
  - unfold handleNodesChange, save. by frame.
  - unfold handleEdgesChange, save. by frame.
  - unfold handleConnect, save. by frame.
  - unfold handleConnectStart, save. by frame.
  - apply view_handleConnectEnd.
  - apply view_addNode.
  - unfold duplicateNodeSettled.
    pose proof (view_duplicateNode id st) as Hdup.
    destruct (duplicateNode nanoid id st) as [st' deferred].
    by rewrite view_runDeferred.
  - apply view_handleDuplicateAll.
  - unfold addDropNode. destruct targetIsHTMLElement; [|done].
    apply view_addNode.
  - unfold handleSelectAll. by frame.
  - unfold handleCopy. destruct (filter _ _); [done|]. by frame.
  - apply view_handlePaste.
  - destruct (st_project st); [apply view_handlePasteEvent|done].
Qed.

End Frame.

(** ** The debounced save *)

Section DebounceProofs.

Variable nanoid : nat → string.

Lemma st_project_perform g st :
  st_project (perform nanoid g st) = st_project st.
Proof. by apply (view_perform nanoid st_project). Qed.

Lemma callsSave_arms_timer g st :
  callsSave g = true → st_saveTimer (perform nanoid g st) = Some 1000.
Proof. by destruct g. Qed.

Lemma burst_arms_timer burst st :
  burst ≠ [] → forallb callsSave burst = true →
  st_saveTimer (run nanoid (UserGesture <$> burst) st) = Some 1000 ∧
  saveView (run nanoid (UserGesture <$> burst) st) = saveView st ∧
  st_project (run nanoid (UserGesture <$> burst) st) = st_project st.
Proof.
  unfold run. revert st.
  induction burst as [|g burst IH]; intros st Hne Hsave; [done|].
  simpl in Hsave. apply andb_prop in Hsave as [Hg Hburst].
  rewrite fmap_cons. cbn [foldl step].
  destruct burst as [|g' burst'].
  - simpl. split; [by apply callsSave_arms_timer|].
    split; [apply saveView_perform|apply st_project_perform].
  - destruct (IH (perform nanoid g st)) as (-> & -> & ->); [done..|].
    split; [done|].
    split; [apply saveView_perform|apply st_project_perform].
Qed.

(** X13.  A burst of mutations, however long, is followed by exactly one save
    request when the timer fires, and the request carries the graph as it is
    then, after the last mutation; the timer firing once more sends nothing. *)
Theorem burst_of_mutations_saves_once (burst : list Gesture) (st : Canvas) :
  burst ≠ [] → forallb callsSave burst = true →
  st_isSaving st = false → projectReady (st_project st) = true →
  st_issued (timerFires (run nanoid (UserGesture <$> burst) st))
  = S (st_issued st) ∧
  st_inFlight (timerFires (run nanoid (UserGesture <$> burst) st))
  = st_inFlight st ++ [toObject (run nanoid (UserGesture <$> burst) st)] ∧
  st_issued
    (timerFires (timerFires (run nanoid (UserGesture <$> burst) st)))
  = S (st_issued st).
Proof.
  intros Hne Hsave Hidle Hproject.
  destruct (burst_arms_timer burst st Hne Hsave)
    as (Htimer & Hview & Hsame).
  unfold saveView in Hview. injection Hview as Hsaving HinFlight Hissued.
  assert (timerFires (run nanoid (UserGesture <$> burst) st)
          = setSaving true
              (st_lastSaved (run nanoid (UserGesture <$> burst) st))
              (st_inFlight st
               ++ [toObject (run nanoid (UserGesture <$> burst) st)])
              (S (st_issued st))
              (setSaveTimer None (run nanoid (UserGesture <$> burst) st)))
    as ->.
  { unfold timerFires. rewrite Htimer.
    cbn [st_isSaving st_project st_lastSaved st_inFlight st_issued
         setSaveTimer].
    by rewrite Hsaving, Hidle, Hsame, Hproject, HinFlight, Hissued. }
  done.
Qed.

(** X14.  Without a project, or without its user or its id, no save request is
    ever sent, whatever happens on the canvas. *)
Theorem no_project_no_save (events : list Event) (st : Canvas) :
  projectReady (st_project st) = false →
  st_issued (run nanoid events st) = st_issued st.
Proof.
  unfold run. revert st.
  induction events as [|ev events IH]; intros st Hproject; [done|].
  simpl.
  assert (st_project (step nanoid st ev) = st_project st ∧
          st_issued (step nanoid st ev) = st_issued st) as [Hsame Hissued].
  { destruct ev as [g| |response now]; simpl.
    - split; [apply st_project_perform|].
      pose proof (saveView_perform nanoid g st) as Hview.
      unfold saveView in Hview. by injection Hview.
    - unfold timerFires. destruct (st_saveTimer st); [|done].
      cbn [st_isSaving st_project setSaveTimer]. rewrite Hproject.
      by rewrite orb_true_r.
    - unfold saveSettles. destruct (st_inFlight st); [done|].
      by destruct response. }
  rewrite IH; [done|]. by rewrite Hsame.
Qed.

End DebounceProofs.

(** X15.  Whatever the response to a save, the graph stays as it is and the
    saving flag comes down; the time of the last save moves only on success;
    and the next call of [save] sends, once its timer fires, the graph as it
    is then. *)
Theorem settled_save_keeps_graph
    (response : SaveResponse) (now : nat) (snapshot : Snapshot)
    (st : Canvas) :
  st_inFlight st = [snapshot] → projectReady (st_project st) = true →
  st_nodes (saveSettles response now st) = st_nodes st ∧
  st_edges (saveSettles response now st) = st_edges st ∧
  st_isSaving (saveSettles response now st) = false ∧
  (response = ResponseOk →
   st_lastSaved (saveSettles response now st) = Some now) ∧
  (response ≠ ResponseOk →
   st_lastSaved (saveSettles response now st) = st_lastSaved st) ∧
  st_inFlight (timerFires (save (saveSettles response now st)))
  = [toObject (saveSettles response now st)].
Proof.
  intros HinFlight Hproject. unfold saveSettles. rewrite HinFlight.
  destruct response; simpl; (repeat (split; [done|]));
    unfold timerFires, save; simpl; by rewrite Hproject.
Qed.

Lemma burst_of_mutations_saves_once_witness :
  st_issued
    (timerFires
       (run sampleNanoid
          (UserGesture
             <$> [AddNode "text" noOptions;
                  Connect (sampleConnection "A" "B");
                  NodesChange [NodeRemoveChange "B"]])
          canvasWithCopy))
  = 1.
Proof.
  by apply (burst_of_mutations_saves_once sampleNanoid
              [AddNode "text" noOptions; Connect (sampleConnection "A" "B");
               NodesChange [NodeRemoveChange "B"]] canvasWithCopy).
Defined.

Lemma no_project_no_save_witness :
  st_issued
    (run sampleNanoid
       [UserGesture (AddNode "text" noOptions); TimerFires]
       {| st_project := None;
          st_nodes := []; st_edges := []; st_copiedNodes := [];
          st_viewport := sampleViewport;
          st_isSaving := false; st_lastSaved := None; st_saveTimer := None;
          st_inFlight := []; st_issued := 0;
          st_toasts := []; st_console := []; st_tracked := [];
          st_nanoidCalls := 0 |})
  = 0.
Proof. by apply (no_project_no_save sampleNanoid). Defined.

Lemma settled_save_keeps_graph_witness :
  st_nodes
    (saveSettles (ResponseError "offline") 9
       (timerFires (save canvasWithCopy)))
  = st_nodes canvasWithCopy.
Proof.
  by apply (settled_save_keeps_graph (ResponseError "offline") 9
              (toObject canvasWithCopy) (timerFires (save canvasWithCopy))).
Defined.

(** ** Dropping files on the canvas *)

Section DropzoneProofs.

Variable nanoid : nat → string.
Variable uploadFile : File → option Uploaded.
Variable innerWidth innerHeight : Q.

Lemma createNodeFromFile_uploaded file uploaded st :
  st_project st ≠ None → uploadFile file = Some uploaded →
  ∃ st' node,
    createNodeFromFile nanoid uploadFile innerWidth innerHeight file None st
    = Some st' ∧
    st_nodes st' = st_nodes st ++ [node] ∧
    st_edges st' = st_edges st ∧
    st_project st' = st_project st ∧
    st_viewport st' = st_viewport st ∧
    st_nanoidCalls st' = S (st_nanoidCalls st) ∧
    node_id node = nanoid (st_nanoidCalls st) ∧
    node_data node
    = [("content",
        JsObject [("url", JsString (uploaded_url uploaded));
                  ("type", JsString (uploaded_type uploaded));
                  ("name", JsString (file_name file))])] ∧
    (node_type node = Some "image" ↔
     String.prefix "image/" (uploaded_type uploaded) = true) ∧
    (String.prefix "image/" (uploaded_type uploaded) = false →
     String.prefix "video/" (uploaded_type uploaded) = false →
     String.prefix "audio/" (uploaded_type uploaded) = false →
     node_type node = Some "file") ∧
    node_position node
    = {| pos_x :=
           (- vp_x (st_viewport st) / vp_zoom (st_viewport st)
            + innerWidth / 2 / vp_zoom (st_viewport st))%Q;
         pos_y :=
           (- vp_y (st_viewport st) / vp_zoom (st_viewport st)
            + innerHeight / 2 / vp_zoom (st_viewport st))%Q |}.
Proof.
  intros Hproject Hupload. unfold createNodeFromFile. rewrite Hupload.
  destruct (st_project st) as [project|] eqn:Hp; [|done].
  eexists. eexists. split; [reflexivity|]. cbn. rewrite Hp.
  repeat (split; [done|]). split; [|split; [|done]].
  - destruct (String.prefix "image/" _); [done|].
    destruct (String.prefix "video/" _); [done|].
    by destruct (String.prefix "audio/" _).
  - by intros -> -> ->.
Qed.

Lemma onDrop_no_project acceptedFiles st :
  st_project st = None →
  onDrop nanoid uploadFile innerWidth innerHeight acceptedFiles st = st.
Proof.
  intros Hproject. induction acceptedFiles as [|file rest IH]; [done|].
  simpl. unfold createNodeFromFile. by rewrite Hproject.
Qed.

(** X16.  When every upload succeeds, a drop appends one node per file, in the
    order of the files: each under the next id, at the centre of the viewport,
    carrying its file's name and its upload's address and type, and of kind
    image exactly when that type is an image type.  No edge is touched. *)
Theorem onDrop_creates_node_per_file (acceptedFiles : list File)
    (st : Canvas) :
  st_project st ≠ None →
  Forall (λ file, is_Some (uploadFile file)) acceptedFiles →
  ∃ created,
    st_nodes (onDrop nanoid uploadFile innerWidth innerHeight
                     acceptedFiles st)
    = st_nodes st ++ created ∧
    length created = length acceptedFiles ∧
    st_edges (onDrop nanoid uploadFile innerWidth innerHeight
                     acceptedFiles st)
    = st_edges st ∧
    ∀ i file,
      acceptedFiles !! i = Some file →
      ∃ node uploaded,
        created !! i = Some node ∧ uploadFile file = Some uploaded ∧
        node_id node = nanoid (st_nanoidCalls st + i) ∧
        node_data node
        = [("content",
            JsObject [("url", JsString (uploaded_url uploaded));
                      ("type", JsString (uploaded_type uploaded));
                      ("name", JsString (file_name file))])] ∧
        (node_type node = Some "image" ↔
         String.prefix "image/" (uploaded_type uploaded) = true) ∧
        node_position node
        = {| pos_x :=
               (- vp_x (st_viewport st) / vp_zoom (st_viewport st)
                + innerWidth / 2 / vp_zoom (st_viewport st))%Q;
             pos_y :=
               (- vp_y (st_viewport st) / vp_zoom (st_viewport st)
                + innerHeight / 2 / vp_zoom (st_viewport st))%Q |}.
Proof.
  intros Hproject Huploads. revert st Hproject.
  induction Huploads as [|file rest [uploaded Hupload] _ IH];
    intros st Hproject.
  - exists []. simpl. rewrite app_nil_r. by repeat split.
  - destruct (createNodeFromFile_uploaded file uploaded st Hproject Hupload)
      as (st' & node & Hcreate & Hnodes & Hedges & Hp & Hviewport & Hcalls
          & Hid & Hdata & Himage & _ & Hposition).
    destruct (IH st') as (created & Hnodes' & Hlength & Hedges' & Heach);
      [by rewrite Hp|].
    exists (node :: created). simpl. rewrite Hcreate, Hnodes', Hnodes.
    split; [by rewrite <- app_assoc|]. split; [by rewrite Hlength|].
    split; [by rewrite Hedges'|].
    intros [|i] other Hi; simpl in Hi.
    + simplify_eq. exists node, uploaded.
      rewrite Nat.add_0_r. repeat (split; [done|]). done.
    + destruct (Heach i other Hi)
        as (node' & uploaded' & ? & ? & Hid' & ? & ? & Hposition').
      exists node', uploaded'. rewrite Hviewport in Hposition'.
      repeat (split; [done|]). split; [|done].
      rewrite Hid', Hcalls. f_equal. lia.
Qed.

(** X17.  A drop stops at the first upload that throws: the files before it
    have their nodes, the failed file and the files after it have none. *)
Theorem onDrop_stops_at_failed_upload
    (before after : list File) (failed : File) (st : Canvas) :
  uploadFile failed = None → st_project st ≠ None →
  Forall (λ file, is_Some (uploadFile file)) before →
  onDrop nanoid uploadFile innerWidth innerHeight
         (before ++ failed :: after) st
  = onDrop nanoid uploadFile innerWidth innerHeight before st.
Proof.
  intros Hfailed Hproject Huploads. revert st Hproject.
  induction Huploads as [|file rest [uploaded Hupload] _ IH];
    intros st Hproject; simpl.
  - unfold createNodeFromFile. rewrite Hfailed.
    by destruct (st_project st).
  - destruct (createNodeFromFile_uploaded file uploaded st Hproject Hupload)
      as (st' & node & -> & _ & _ & Hp & _).
    apply IH. by rewrite Hp.
Qed.

End DropzoneProofs.

Lemma onDrop_creates_node_per_file_witness :
  ∃ created,
    st_nodes (onDrop sampleNanoid uploadOk 1280 720
                [clipboardFile "image/png" "PNG";
                 clipboardFile "video/mp4" "MP4"] canvasWithCopy)
    = st_nodes canvasWithCopy ++ created ∧
    length created = 2.
Proof.
  destruct (onDrop_creates_node_per_file sampleNanoid uploadOk 1280 720
              [clipboardFile "image/png" "PNG";
               clipboardFile "video/mp4" "MP4"] canvasWithCopy)
    as (created & Hnodes & Hlength & _).
  - done.
  - repeat constructor; by eexists.
  - by exists created.
Defined.

Lemma onDrop_stops_at_failed_upload_witness :
  onDrop sampleNanoid
    (λ file, if String.eqb (file_type file) "video/mp4" then None
             else uploadOk file)
    1280 720
    [clipboardFile "image/png" "PNG"; clipboardFile "video/mp4" "MP4";
     clipboardFile "image/gif" "GIF"] canvasWithCopy
  = onDrop sampleNanoid
      (λ file, if String.eqb (file_type file) "video/mp4" then None
               else uploadOk file)
      1280 720 [clipboardFile "image/png" "PNG"] canvasWithCopy.
Proof.
  apply (onDrop_stops_at_failed_upload sampleNanoid _ 1280 720
           [clipboardFile "image/png" "PNG"] [clipboardFile "image/gif" "GIF"]
           (clipboardFile "video/mp4" "MP4") canvasWithCopy).
  - reflexivity.
  - done.
  - repeat constructor. by eexists.
Defined.

(** ** Adding a node and finding it again *)

Section AddNodeProofs.

Variable nanoid : nat → string.

(** X18.  The id [addNode] returns resolves, through [getNode], to the node it
    has just appended: of the kind asked for, at the position asked for or at
    the origin; every other id resolves as before.  [nanoid] is taken to
    return an id that is not in use. *)
Theorem addNode_then_getNode (type : string) (options : NodeOptions)
    (st : Canvas) :
  nanoid (st_nanoidCalls st) ∉ node_ids (st_nodes st) →
  ∃ node,
    st_nodes (fst (addNode nanoid type options st)) = st_nodes st ++ [node] ∧
    getNode (snd (addNode nanoid type options st))
            (st_nodes (fst (addNode nanoid type options st)))
    = Some node ∧
    node_type node = Some (default type (opt_type options)) ∧
    node_position node
    = default {| pos_x := 0%Q; pos_y := 0%Q |} (opt_position options) ∧
    node_data node = default [] (opt_data options) ∧
    (∀ id, id ≠ snd (addNode nanoid type options st) →
           getNode id (st_nodes (fst (addNode nanoid type options st)))
           = getNode id (st_nodes st)).
Proof.
  intros Hfresh. eexists. split; [reflexivity|].
  cbn [addNode fst snd st_nodes track save setSaveTimer setNodes drawn
       node_id].
  unfold getNode. rewrite reverse_snoc. cbn [find node_id].
  rewrite String.eqb_refl. repeat (split; [done|]).
  intros id Hid.
  by destruct (String.eqb_spec (nanoid (st_nanoidCalls st)) id).
Qed.

End AddNodeProofs.

Lemma addNode_then_getNode_witness :
  ∃ node,
    getNode (snd (addNode sampleNanoid "text" noOptions canvasWithCopy))
            (st_nodes (fst (addNode sampleNanoid "text" noOptions
                                    canvasWithCopy)))
    = Some node ∧
    node_type node = Some "text".
Proof.
  destruct (addNode_then_getNode sampleNanoid "text" noOptions canvasWithCopy)
    as (node & _ & Hget & Htype & _).
  - intros Hin. apply list_elem_of_In in Hin.
    destruct Hin as [|[|[]]]; discriminate.
  - by exists node.
Defined.

(** ** More on the save, the edges and the two ways to an image node *)

Section MoreProofs.

Variable nanoid : nat → string.

Lemma round_sends_one g response now st :
  callsSave g = true →
  st_isSaving st = false → st_inFlight st = [] →
  projectReady (st_project st) = true →
  st_issued (saveSettles response now (timerFires (perform nanoid g st)))
  = S (st_issued st) ∧
  st_isSaving (saveSettles response now (timerFires (perform nanoid g st)))
  = false ∧
  st_inFlight (saveSettles response now (timerFires (perform nanoid g st)))
  = [] ∧
  st_project (saveSettles response now (timerFires (perform nanoid g st)))
  = st_project st.
Proof.
  intros Hsave Hidle Hnone Hproject.
  pose proof (callsSave_arms_timer nanoid g st Hsave) as Htimer.
  pose proof (st_project_perform nanoid g st) as Hsame.
  pose proof (saveView_perform nanoid g st) as Hview.
  unfold saveView in Hview. injection Hview as Hsaving HinFlight Hissued.
  unfold timerFires. rewrite Htimer.
  cbn [st_isSaving st_project st_lastSaved st_inFlight st_issued
       setSaveTimer].
  rewrite Hsaving, Hidle, Hsame, Hproject, HinFlight, Hnone, Hissued.
  cbn [orb negb app]. unfold saveSettles.
  cbn [st_inFlight setSaving]. destruct response; simpl; by rewrite Hsame.
Qed.

(** X19.  Mutations spaced further apart than the debounce window each get a
    save request of their own. *)
Theorem spaced_mutations_save_each
    (rounds : list (Gesture * SaveResponse * nat)) (st : Canvas) :
  Forall (λ round, callsSave round.1.1 = true) rounds →
  st_isSaving st = false → st_inFlight st = [] →
  projectReady (st_project st) = true →
  st_issued (run nanoid (spaced rounds) st) = st_issued st + length rounds.
Proof.
  intros Hrounds. revert st.
  induction Hrounds as [|[[g response] now] rounds Hsave _ IH];
    intros st Hidle Hnone Hproject.
  - simpl. lia.
  - destruct (round_sends_one g response now st)
      as (Hissued & Hidle' & Hnone' & Hsame); [done..|].
    unfold spaced, run in *. rewrite bind_cons. simpl.
    rewrite IH; [|done|done|by rewrite Hsame].
    rewrite Hissued. lia.
Qed.

(** X20.  Only edge changes, a connection, and the start or the end of a drag
    write the edge collection: every other gesture leaves the edges as they
    are, so duplicated, pasted and dropped nodes come unconnected. *)
Theorem only_edge_gestures_touch_edges (g : Gesture) (st : Canvas) :
  touchesEdges g = false → st_edges (perform nanoid g st) = st_edges st.
Proof.
  destruct g; try discriminate; intros _; simpl; try done.
  - unfold duplicateNodeSettled.
    pose proof (view_duplicateNode nanoid st_edges) as Hdup.
    specialize (Hdup ltac:(done) ltac:(done) ltac:(done) ltac:(done) id st).
    destruct (duplicateNode nanoid id st) as [st' deferred].
    rewrite <- Hdup. by apply view_runDeferred.
  - by apply view_handleDuplicateAll.
  - unfold addDropNode. by destruct targetIsHTMLElement.
  - unfold handleCopy. by destruct (filter _ _).
  - by apply view_handlePaste.
  - destruct (st_project st); [|done]. by apply view_handlePasteEvent.
Qed.

(** X21.  A pasted image and a dropped image file end up as the same node:
    same id, kind, data and position.  The paste reports one more analytics
    event. *)
Theorem paste_and_drop_agree (env : PasteEnv) (file : File)
    (uploaded : Uploaded) (st : Canvas) :
  st_project st ≠ None →
  env_uploadFile env file = Some uploaded →
  String.prefix "image/" (uploaded_type uploaded) = true →
  ∃ pasted dropped,
    handlePasteImage nanoid env file st = Some pasted ∧
    createNodeFromFile nanoid (env_uploadFile env) (env_innerWidth env)
                       (env_innerHeight env) file None st
    = Some dropped ∧
    st_nodes pasted = st_nodes dropped ∧
    st_edges pasted = st_edges dropped ∧
    length (st_tracked pasted) = S (length (st_tracked dropped)).
Proof.
  intros Hproject Hupload Himage.
  unfold handlePasteImage, createNodeFromFile. rewrite Hupload, Himage.
  destruct (st_project st); [|done].
  eexists. eexists. split; [reflexivity|]. split; [reflexivity|].
  simpl. repeat (split; [done|]). rewrite !length_app. simpl. lia.
Qed.

End MoreProofs.

Lemma spaced_mutations_save_each_witness :
  st_issued
    (run sampleNanoid
       (spaced [(AddNode "text" noOptions, ResponseOk, 3);
                (Connect (sampleConnection "A" "B"),
                 ResponseError "offline", 7)])
       canvasWithCopy)
  = 0 + 2.
Proof.
  apply (spaced_mutations_save_each sampleNanoid
           [(AddNode "text" noOptions, ResponseOk, 3);
            (Connect (sampleConnection "A" "B"), ResponseError "offline", 7)]
           canvasWithCopy); try done.
  by repeat constructor.
Defined.

Lemma only_edge_gestures_touch_edges_witness :
  st_edges (perform sampleNanoid (Paste pasteNoImage) canvasWithCopy)
  = st_edges canvasWithCopy.
Proof. by apply only_edge_gestures_touch_edges. Defined.

Lemma paste_and_drop_agree_witness :
  ∃ pasted dropped,
    handlePasteImage sampleNanoid pasteWithImage
      (clipboardFile "image/png" "PNG") canvasWithCopy
    = Some pasted ∧
    createNodeFromFile sampleNanoid uploadOk 1280 720
      (clipboardFile "image/png" "PNG") None canvasWithCopy
    = Some dropped ∧
    st_nodes pasted = st_nodes dropped.
Proof.
  destruct (paste_and_drop_agree sampleNanoid pasteWithImage
              (clipboardFile "image/png" "PNG")
              {| uploaded_url := "https://files/clipboard-image.png";
                 uploaded_type := "image/png" |} canvasWithCopy)
    as (pasted & dropped & Hpaste & Hdrop & Hnodes & _); [done..|].
  by exists pasted, dropped.
Defined.

(** ** Ids stay unique *)

Section UniqueIds.

Variable nanoid : nat → string.

(** [nanoid] never returns the same id twice. *)
Hypothesis nanoid_inj : ∀ j k, nanoid j = nanoid k → j = k.

(** Dropping nodes or edges, or drawing ids without using them, keeps
    the ids unique and fresh. *)
Lemma idsFresh_shrink st st' :
  node_ids (st_nodes st') `sublist_of` node_ids (st_nodes st) →
  edge_ids (st_edges st') `sublist_of` edge_ids (st_edges st) →
  st_nanoidCalls st ≤ st_nanoidCalls st' →
  idsFresh nanoid st → idsFresh nanoid st'.
Proof.
  intros Hnodes Hedges Hcalls (Hn & He & Hfresh).
  split; [exact (sublist_NoDup _ _ Hn Hnodes)|].
  split; [exact (sublist_NoDup _ _ He Hedges)|].
  intros k Hk. destruct (Hfresh k) as [Hkn Hke]; [lia|].
  split; intros Hin.
  - apply Hkn. by eapply elem_of_sublist.
  - apply Hke. by eapply elem_of_sublist.
Qed.

Lemma idsFresh_same st st' :
  node_ids (st_nodes st') = node_ids (st_nodes st) →
  edge_ids (st_edges st') = edge_ids (st_edges st) →
  st_nanoidCalls st' = st_nanoidCalls st →
  idsFresh nanoid st → idsFresh nanoid st'.
Proof.
  intros Hnodes Hedges Hcalls. apply idsFresh_shrink.
  - by rewrite Hnodes.
  - by rewrite Hedges.
  - by rewrite Hcalls.
Qed.

(** Appending nodes under the next ids [nanoid] returns. *)
Lemma idsFresh_new_nodes n st st' :
  node_ids (st_nodes st')
  = node_ids (st_nodes st)
    ++ ((λ i, nanoid (st_nanoidCalls st + i)) <$> seq 0 n) →
  edge_ids (st_edges st') = edge_ids (st_edges st) →
  st_nanoidCalls st' = n + st_nanoidCalls st →
  idsFresh nanoid st → idsFresh nanoid st'.
Proof.
  intros Hnodes Hedges Hcalls (Hn & He & Hfresh).
  unfold idsFresh. rewrite Hnodes, Hedges, Hcalls.
  split; [|split; [done|]].
  - apply NoDup_app. split; [done|]. split.
    + intros x Hx (i & -> & _)%list_elem_of_fmap.
      destruct (Hfresh (st_nanoidCalls st + i)) as [Hno _]; [lia|done].
    + apply NoDup_fmap_2; [|apply NoDup_seq].
      intros i j Hij. apply nanoid_inj in Hij. lia.
  - intros k Hk. destruct (Hfresh k) as [Hkn Hke]; [lia|].
    split; [|done]. intros [Hin|Hin]%elem_of_app; [done|].
    apply list_elem_of_fmap in Hin as (i & Heq & Hi).
    apply nanoid_inj in Heq. apply elem_of_seq in Hi. lia.
Qed.

(** Appending one edge under the next id. *)
Lemma idsFresh_new_edge st st' :
  node_ids (st_nodes st') = node_ids (st_nodes st) →
  edge_ids (st_edges st')
  = edge_ids (st_edges st) ++ [nanoid (st_nanoidCalls st)] →
  st_nanoidCalls st' = 1 + st_nanoidCalls st →
  idsFresh nanoid st → idsFresh nanoid st'.
Proof.
  intros Hnodes Hedges Hcalls (Hn & He & Hfresh).
  unfold idsFresh. rewrite Hnodes, Hedges, Hcalls.
  split; [done|]. split.
  - apply NoDup_app. split; [done|]. split; [|apply NoDup_singleton].
    intros x Hx ->%list_elem_of_singleton.
    by destruct (Hfresh (st_nanoidCalls st)) as [_ Hno]; [lia|].
  - intros k Hk. destruct (Hfresh k) as [Hkn Hke]; [lia|].
    split; [done|]. intros [Hin|Hin]%elem_of_app; [done|].
    apply list_elem_of_singleton, nanoid_inj in Hin. lia.
Qed.

Lemma idsFresh_addNode type options st :
  idsFresh nanoid st → idsFresh nanoid (fst (addNode nanoid type options st)).
Proof.
  apply (idsFresh_new_nodes 1); [|done..].
  simpl. unfold node_ids. rewrite fmap_app. simpl.
  by rewrite Nat.add_0_r.
Qed.

Lemma idsFresh_updateNode id selected st :
  idsFresh nanoid st → idsFresh nanoid (updateNode id selected st).
Proof.
  unfold updateNode. destruct (existsb _ _); [|done].
  apply idsFresh_same; [|done..]. simpl. by rewrite node_ids_updateWhere.
Qed.

Lemma idsFresh_runDeferred deferred st :
  idsFresh nanoid st → idsFresh nanoid (foldl runDeferred st deferred).
Proof.
  revert st. induction deferred as [|d deferred IH]; intros st Hst; [done|].
  simpl. apply IH. unfold runDeferred. by do 2 apply idsFresh_updateNode.
Qed.

Lemma idsFresh_duplicateNode id st :
  idsFresh nanoid st → idsFresh nanoid (fst (duplicateNode nanoid id st)).
Proof.
  intros Hst. unfold duplicateNode.
  destruct (getNode id (st_nodes st)) as [node|]; [|done].
  destruct (node_type node) as [type|]; [|done].
  destruct (truthy type); [|done].
  match goal with
  | |- context [addNode nanoid ?type ?options st] =>
      pose proof (idsFresh_addNode type options st Hst) as Hadd;
      by destruct (addNode nanoid type options st)
  end.
Qed.

Lemma idsFresh_handleDuplicateAll st :
  idsFresh nanoid st → idsFresh nanoid (handleDuplicateAll nanoid st).
Proof.
  intros Hst. unfold handleDuplicateAll.
  generalize (filter (λ node, node_selected node = true) (st_nodes st)).
  intros selected.
  assert (∀ acc, idsFresh nanoid (fst acc) →
    idsFresh nanoid
      (fst (foldl (λ '(st, deferred) node,
              let '(st, more) := duplicateNode nanoid (node_id node) st
              in (st, deferred ++ more)) acc selected))) as Hfold.
  { induction selected as [|node selected IH]; intros [st' deferred] Hacc;
      [done|]. simpl. apply IH.
    pose proof (idsFresh_duplicateNode (node_id node) st' Hacc) as Hdup.
    by destruct (duplicateNode nanoid (node_id node) st'). }
  specialize (Hfold (st, []) Hst).
  destruct (foldl _ (st, []) selected) as [st' deferred].
  by apply idsFresh_runDeferred.
Qed.

Lemma idsFresh_handleConnectEnd isValid clientX clientY fromNode
    isSourceHandle st :
  idsFresh nanoid st →
  idsFresh nanoid (handleConnectEnd nanoid isValid clientX clientY fromNode
                                    isSourceHandle st).
Proof.
  intros Hst. unfold handleConnectEnd. destruct isValid; [done|].
  destruct fromNode as [sourceId|]; [|done].
  destruct (truthy sourceId); [|done].
  match goal with
  | |- context [addNode nanoid ?type ?options st] =>
      pose proof (idsFresh_addNode type options st Hst) as Hadd;
      destruct (addNode nanoid type options st) as [st1 newId]
  end.
  revert Hadd. apply idsFresh_new_edge; [done| |done].
  unfold edge_ids. simpl. by rewrite fmap_app.
Qed.

Lemma idsFresh_handlePasteImage env file st st' :
  handlePasteImage nanoid env file st = Some st' →
  idsFresh nanoid st → idsFresh nanoid st'.
Proof.
  unfold handlePasteImage. intros Hpaste Hst.
  destruct (env_uploadFile env file) as [uploaded|]; [|done].
  match goal with
  | _ : context [addNode nanoid ?type ?options st] |- _ =>
      pose proof (idsFresh_addNode type options st Hst) as Hadd;
      destruct (addNode nanoid type options st) as [st1 newId]
  end.
  simplify_eq. revert Hadd. by apply idsFresh_same.
Qed.

Lemma idsFresh_pasteCopiedNodes st :
  idsFresh nanoid st → idsFresh nanoid (pasteCopiedNodes nanoid st).
Proof.
  unfold pasteCopiedNodes.
  destruct (st_copiedNodes st) as [|first more] eqn:Hcopied; [done|].
  apply (idsFresh_new_nodes (length (first :: more))); [|done..].
  cbn [st_nodes setNodes drawn]. unfold node_ids.
  rewrite fmap_app, <- list_fmap_compose, fmap_imap.
  f_equal. rewrite <- imap_seq_0. by apply imap_ext.
Qed.

Lemma idsFresh_handlePaste env st :
  idsFresh nanoid st → idsFresh nanoid (handlePaste nanoid env st).
Proof.
  intros Hst. unfold handlePaste.
  destruct (isTyping (env_activeElement env)); [done|].
  destruct (tryPasteImage nanoid env st) as [st'| |error] eqn:Htry.
  - unfold tryPasteImage in Htry.
    destruct (env_clipboard env) as [|reason|items]; [done..|].
    induction items as [|item items IH]; simpl in Htry; [done|].
    destruct (imageTypes item) as [|imageType more]; [by apply IH|].
    destruct (item_getType item imageType) as [blob|]; [|done].
    destruct (handlePasteImage nanoid env _ st) as [st''|] eqn:Himage;
      [|done].
    simplify_eq. by eapply idsFresh_handlePasteImage.
  - by apply idsFresh_pasteCopiedNodes.
  - apply idsFresh_pasteCopiedNodes. revert Hst. by apply idsFresh_same.
Qed.

Lemma idsFresh_handlePasteEvent env target items st :
  idsFresh nanoid st →
  idsFresh nanoid (handlePasteEvent nanoid env target items st).
Proof.
  intros Hst. unfold handlePasteEvent. destruct (isTyping target); [done|].
  destruct items as [items|]; [|done].
  destruct (pasteEventItems nanoid env items st) as [st'|] eqn:Hloop;
    [|done].
  simpl. induction items as [|item items IH]; simpl in Hloop.
  - by simplify_eq.
  - destruct (String.prefix "image/" (dti_type item)); [|by apply IH].
    destruct (dti_getAsFile item) as [file|]; [|by apply IH].
    by eapply idsFresh_handlePasteImage.
Qed.

Lemma sublist_applyNodeChanges changes nodes :
  node_ids (applyNodeChanges changes nodes) `sublist_of` node_ids nodes.
Proof.
  unfold applyNodeChanges. revert nodes.
  induction changes as [|change changes IH]; intros nodes; simpl; [done|].
  etrans; [apply IH|].
  destruct change as [id position|id selected|id]; simpl.
  - by rewrite node_ids_updateWhere.
  - by rewrite node_ids_updateWhere.
  - unfold node_ids. apply fmap_sublist, sublist_filter.
Qed.

Lemma sublist_applyEdgeChanges changes edges :
  edge_ids (applyEdgeChanges changes edges) `sublist_of` edge_ids edges.
Proof.
  unfold applyEdgeChanges. revert edges.
  induction changes as [|change changes IH]; intros edges; simpl; [done|].
  etrans; [apply IH|].
  destruct change as [id selected|id]; simpl.
  - unfold edge_ids, updateWhere. rewrite <- list_fmap_compose.
    erewrite list_fmap_ext; [done|]. intros _ e _. simpl.
    by destruct (String.eqb (edge_id e) id).
  - unfold edge_ids. apply fmap_sublist, sublist_filter.
Qed.

Lemma idsFresh_perform g st :
  idsFresh nanoid st → idsFresh nanoid (perform nanoid g st).
Proof.
  intros Hst. destruct g; simpl.
  - revert Hst. apply idsFresh_shrink; [|done..].
    apply sublist_applyNodeChanges.
  - revert Hst. apply idsFresh_shrink; [done| |done].
    apply sublist_applyEdgeChanges.
  - revert Hst. apply idsFresh_new_edge; [done| |done].
    unfold edge_ids. simpl. by rewrite fmap_app.
  - revert Hst. apply idsFresh_shrink; [| |done]; simpl.
    + unfold node_ids. apply fmap_sublist, sublist_filter.
    + unfold edge_ids. apply fmap_sublist, sublist_filter.
  - by apply idsFresh_handleConnectEnd.
  - by apply idsFresh_addNode.
  - unfold duplicateNodeSettled.
    pose proof (idsFresh_duplicateNode id st Hst) as Hdup.
    destruct (duplicateNode nanoid id st) as [st' deferred].
    by apply idsFresh_runDeferred.
  - by apply idsFresh_handleDuplicateAll.
  - unfold addDropNode. destruct targetIsHTMLElement; [|done].
    by apply idsFresh_addNode.
  - revert Hst. apply idsFresh_same; [|done..]. simpl.
    unfold node_ids. rewrite <- list_fmap_compose. by apply list_fmap_ext.
  - unfold handleCopy. by destruct (filter _ _).
  - by apply idsFresh_handlePaste.
  - destruct (st_project st); [|done]. by apply idsFresh_handlePasteEvent.
Qed.

(** X22.  As long as [nanoid] never repeats itself and does not return an id
    already on the canvas, every node created by a gesture (added, duplicated,
    pasted, dropped as a placeholder) gets an id no other node has, and every
    edge one no other edge has: ids stay unique through every run of the
    canvas. *)
Theorem ids_stay_unique (events : list Event) (st : Canvas) :
  idsFresh nanoid st →
  NoDup (node_ids (st_nodes (run nanoid events st))) ∧
  NoDup (edge_ids (st_edges (run nanoid events st))).
Proof.
  intros Hst.
  assert (idsFresh nanoid (run nanoid events st)) as (? & ? & _); [|done].
  unfold run. revert st Hst.
  induction events as [|ev events IH]; intros st Hst; [done|].
  simpl. apply IH. destruct ev as [g| |response now]; simpl.
  - by apply idsFresh_perform.
  - revert Hst. apply idsFresh_same; unfold timerFires;
      destruct (st_saveTimer st); try done;
      by destruct (st_isSaving _ || _).
  - revert Hst. apply idsFresh_same; unfold saveSettles;
      destruct (st_inFlight st); try done; by destruct response.
Qed.

End UniqueIds.

Lemma ids_stay_unique_witness :
  NoDup (node_ids
           (st_nodes
              (run sampleNanoid
                 [UserGesture (DuplicateNode "A"); UserGesture SelectAll;
                  UserGesture Copy; UserGesture (Paste pasteNoImage);
                  UserGesture (Connect (sampleConnection "B" "A"))]
                 canvasWithCopy))).
Proof.
  apply (ids_stay_unique sampleNanoid sampleNanoid_inj).
  split; [|split].
  - apply NoDup_cons. split; [|apply NoDup_singleton].
    by intros ?%list_elem_of_singleton.
  - apply NoDup_singleton.
  - intros k _. unfold sampleNanoid. simpl.
    split; intros Hin; apply list_elem_of_In in Hin; simpl in Hin;
      repeat (destruct Hin as [Hin|Hin]; [discriminate Hin|]); done.
Defined.
